(** * WebRisk demo client: scan classifier and submission lifecycle

    A shallow embedding of [frontend/src/components/SubmissionTab.js]: the
    in-memory [SubmissionTab] component and the [WebRiskDemo] component with
    its [localStorage] persistence.

    JavaScript values are an inductive type and a computation that may throw
    returns a [result].  A handler is a function of the state its closure
    captured when it was called, of the clock readings it takes and of the
    way each remote call ends; it returns the state it sets and a log of the
    requests and [localStorage] calls it makes.  One run of a handler is
    modelled, not the interleaving of several. *)

From Stdlib Require Import List String Ascii ZArith NArith Bool Lia.
From Stdlib Require Import Decimal DecimalN DecimalPos DecimalFacts.
Import ListNotations.

Set Warnings "-register-all".

Local Open Scope string_scope.
Local Open Scope list_scope.

(** ** JavaScript values and the primitives the components use *)

Module JS.

(** Numbers are the integers ([Date.now()] is the only number the components
    create); strings are sequences of 8-bit code units; an object is the list
    of its own properties in enumeration order. *)
Inductive value : Type :=
| Undefined
| Null
| Bool (b : bool)
| Num (n : Z)
| Str (s : string)
| Arr (elems : list value)
| Obj (props : list (string * value)).

(** Induction on a value that reaches the elements of an array and the
    property values of an object. *)
Section Induction.

Variable P : value -> Prop.
Hypothesis on_undefined : P Undefined.
Hypothesis on_null : P Null.
Hypothesis on_bool : forall b, P (Bool b).
Hypothesis on_num : forall n, P (Num n).
Hypothesis on_str : forall s, P (Str s).
Hypothesis on_arr : forall l, Forall P l -> P (Arr l).
Hypothesis on_obj : forall props, Forall (fun kv => P (snd kv)) props -> P (Obj props).

Fixpoint value_induction (v : value) : P v :=
  match v with
  | Undefined => on_undefined
  | Null => on_null
  | Bool b => on_bool b
  | Num n => on_num n
  | Str s => on_str s
  | Arr l =>
      on_arr l
        ((fix elements (l : list value) : Forall P l :=
            match l with
            | [] => Forall_nil P
            | x :: rest => Forall_cons x (value_induction x) (elements rest)
            end) l)
  | Obj props =>
      on_obj props
        ((fix members (ps : list (string * value))
            : Forall (fun kv => P (snd kv)) ps :=
            match ps with
            | [] => Forall_nil _
            | kv :: rest =>
                Forall_cons kv
                  (match kv return P (snd kv) with
                   | (_, x) => value_induction x
                   end)
                  (members rest)
            end) props)
  end.

End Induction.

(** What a [throw] or a rejected promise carries: an error object, of which
    only [message] is ever read. *)
Inductive exn : Type :=
| Error (message : string)
| TypeError (message : string)
| SyntaxError (message : string).

Definition message (e : exn) : string :=
  match e with Error m | TypeError m | SyntaxError m => m end.

(** A computation that returns or throws; [await] of a rejected promise throws. *)
Inductive result (A : Type) : Type :=
| Ok (a : A)
| Throw (e : exn).
Arguments Ok {A} a.
Arguments Throw {A} e.

Definition bind {A B} (m : result A) (k : A -> result B) : result B :=
  match m with
  | Ok a => k a
  | Throw e => Throw e
  end.

Notation "x <- m ;; k" := (bind m (fun x => k))
  (at level 61, m at next level, right associativity).

(** ToBoolean. *)
Definition truthy (v : value) : bool :=
  match v with
  | Undefined | Null => false
  | Bool b => b
  | Num n => negb (Z.eqb n 0)
  | Str s => negb (String.eqb s EmptyString)
  | Arr _ | Obj _ => true
  end.

Definition nullish (v : value) : bool :=
  match v with
  | Undefined | Null => true
  | _ => false
  end.

Fixpoint lookup (key : string) (props : list (string * value)) : option value :=
  match props with
  | [] => None
  | (k, v) :: rest => if String.eqb k key then Some v else lookup key rest
  end.

(** [o.key] on the properties of an object. *)
Definition prop (key : string) (props : list (string * value)) : value :=
  match lookup key props with
  | Some x => x
  | None => Undefined
  end.

Definition type_name (v : value) : string :=
  match v with
  | Null => "null"
  | _ => "undefined"
  end.

(** The engine's wording (V8) of a property read on null or undefined. *)
Definition cannot_read (v : value) (key : string) : exn :=
  TypeError ("Cannot read properties of " ++ type_name v
             ++ " (reading '" ++ key ++ "')")%string.

Definition not_a_function (expr : string) : exn :=
  TypeError (expr ++ " is not a function")%string.

(** [v.key] for the named properties the components read.  Arrays and
    strings own [length]; every other named read on them, and any read on a
    boolean or a number, is undefined. *)
Definition get (v : value) (key : string) : result value :=
  match v with
  | Undefined | Null => Throw (cannot_read v key)
  | Obj props => Ok (prop key props)
  | Arr l => if String.eqb key "length" then Ok (Num (Z.of_nat (List.length l)))
             else Ok Undefined
  | Str s => if String.eqb key "length" then Ok (Num (Z.of_nat (String.length s)))
             else Ok Undefined
  | Bool _ | Num _ => Ok Undefined
  end.

(** [v?.key] *)
Definition get_opt (v : value) (key : string) : result value :=
  if nullish v then Ok Undefined else get v key.

(** [v === 'literal'] *)
Definition is_str (v : value) (lit : string) : bool :=
  match v with
  | Str s => String.eqb s lit
  | _ => false
  end.

(** [[l1, l2, ...].includes(v)] for string literals. *)
Definition includes (lits : list string) (v : value) : bool :=
  existsb (is_str v) lits.

(** [Array.prototype.every], [some] and [find] with a callback that may
    throw; each stops at the first element that decides it. *)
Fixpoint every (f : value -> result bool) (l : list value) : result bool :=
  match l with
  | [] => Ok true
  | x :: rest => b <- f x ;; if b then every f rest else Ok false
  end.

Fixpoint some (f : value -> result bool) (l : list value) : result bool :=
  match l with
  | [] => Ok false
  | x :: rest => b <- f x ;; if b then Ok true else some f rest
  end.

Fixpoint find (f : value -> result bool) (l : list value) : result value :=
  match l with
  | [] => Ok Undefined
  | x :: rest => b <- f x ;; if b then Ok x else find f rest
  end.

(** Writing a named property: an existing key keeps its place, a new one
    goes last. *)
Fixpoint set (props : list (string * value)) (key : string) (v : value)
  : list (string * value) :=
  match props with
  | [] => [(key, v)]
  | (k, x) :: rest =>
      if String.eqb k key then (k, v) :: rest else (k, x) :: set rest key v
  end.

End JS.

Import JS.

(** ** JSON text: [JSON.stringify] and [JSON.parse] *)

Module JSON.

Definition chars := list ascii.

Definition quote : ascii := "034"%char.
Definition backslash : ascii := "092"%char.

Definition lit (s : string) : chars := list_ascii_of_string s.

(** *** Writing *)

Fixpoint uint_chars (d : uint) : chars :=
  match d with
  | Nil => []
  | D0 d => "0"%char :: uint_chars d
  | D1 d => "1"%char :: uint_chars d
  | D2 d => "2"%char :: uint_chars d
  | D3 d => "3"%char :: uint_chars d
  | D4 d => "4"%char :: uint_chars d
  | D5 d => "5"%char :: uint_chars d
  | D6 d => "6"%char :: uint_chars d
  | D7 d => "7"%char :: uint_chars d
  | D8 d => "8"%char :: uint_chars d
  | D9 d => "9"%char :: uint_chars d
  end.

Definition print_num (z : Z) : chars :=
  if (z <? 0)%Z then "-"%char :: uint_chars (N.to_uint (Z.abs_N z))
  else uint_chars (N.to_uint (Z.abs_N z)).

Definition hex_char (n : N) : ascii :=
  if (n <? 10)%N then ascii_of_N (48 + n) else ascii_of_N (87 + n).

(** Quote, backslash and the control characters are escaped; every other
    code unit is written as it is. *)
Definition escape (c : ascii) : chars :=
  let n := N_of_ascii c in
  if Ascii.eqb c quote then [backslash; quote]
  else if Ascii.eqb c backslash then [backslash; backslash]
  else if (n =? 8)%N then [backslash; "b"%char]
  else if (n =? 9)%N then [backslash; "t"%char]
  else if (n =? 10)%N then [backslash; "n"%char]
  else if (n =? 12)%N then [backslash; "f"%char]
  else if (n =? 13)%N then [backslash; "r"%char]
  else if (n <? 32)%N then
    [backslash; "u"%char; "0"%char; "0"%char; hex_char (n / 16); hex_char (n mod 16)]
  else [c].

Fixpoint escape_all (s : string) : chars :=
  match s with
  | EmptyString => []
  | String c rest => escape c ++ escape_all rest
  end.

Definition print_string (s : string) : chars :=
  quote :: escape_all s ++ [quote].

Fixpoint join (parts : list chars) : chars :=
  match parts with
  | [] => []
  | [p] => p
  | p :: rest => p ++ ","%char :: join rest
  end.

(** [JSON.stringify] below the top level: an undefined array element is
    written as null, a property whose value is undefined is left out. *)
Fixpoint print (v : value) : chars :=
  match v with
  | Undefined | Null => lit "null"
  | Bool true => lit "true"
  | Bool false => lit "false"
  | Num z => print_num z
  | Str s => print_string s
  | Arr l => "["%char :: join (map print l) ++ ["]"%char]
  | Obj props =>
      "{"%char ::
      join (flat_map (fun kv =>
                        match kv with
                        | (_, Undefined) => []
                        | (k, x) => [print_string k ++ ":"%char :: print x]
                        end) props)
      ++ ["}"%char]
  end.

(** [JSON.stringify(v)]: a string, except for undefined itself. *)
Definition stringify (v : value) : option string :=
  match v with
  | Undefined => None
  | _ => Some (string_of_list_ascii (print v))
  end.

(** *** Reading *)

Definition is_ws (c : ascii) : bool :=
  Ascii.eqb c " "%char || Ascii.eqb c "009"%char
  || Ascii.eqb c "010"%char || Ascii.eqb c "013"%char.

Fixpoint skip_ws (s : chars) : chars :=
  match s with
  | c :: rest => if is_ws c then skip_ws rest else s
  | [] => []
  end.

Fixpoint strip_prefix (p s : chars) : option chars :=
  match p, s with
  | [], _ => Some s
  | a :: p', b :: s' => if Ascii.eqb a b then strip_prefix p' s' else None
  | _ :: _, [] => None
  end.

(** What follows the bracket [b] when it is the next thing in [s]. *)
Definition closes (b : ascii) (s : chars) : option chars :=
  match skip_ws s with
  | c :: rest => if Ascii.eqb c b then Some rest else None
  | [] => None
  end.

Definition digit_of (c : ascii) : option (uint -> uint) :=
  match N_of_ascii c with
  | 48%N => Some D0
  | 49%N => Some D1
  | 50%N => Some D2
  | 51%N => Some D3
  | 52%N => Some D4
  | 53%N => Some D5
  | 54%N => Some D6
  | 55%N => Some D7
  | 56%N => Some D8
  | 57%N => Some D9
  | _ => None
  end.

Fixpoint read_digits (s : chars) : uint * chars :=
  match s with
  | c :: rest =>
      match digit_of c with
      | Some d => let (u, r) := read_digits rest in (d u, r)
      | None => (Nil, s)
      end
  | [] => (Nil, [])
  end.

(** An integer literal: an optional minus sign and digits without a leading
    zero.  A fraction or an exponent is not an integer and has no value in
    this model. *)
Definition parse_number (s : chars) : option (Z * chars) :=
  let (neg, s1) :=
    match s with
    | c :: rest => if Ascii.eqb c "-"%char then (true, rest) else (false, s)
    | [] => (false, s)
    end in
  let (d, r) := read_digits s1 in
  match d with
  | Nil => None
  | _ =>
      if uint_beq (unorm d) d then
        match r with
        | c :: _ =>
            if Ascii.eqb c "."%char || Ascii.eqb c "e"%char || Ascii.eqb c "E"%char
            then None
            else Some (if neg then (- Z.of_N (N.of_uint d))%Z else Z.of_N (N.of_uint d), r)
        | [] => Some (if neg then (- Z.of_N (N.of_uint d))%Z else Z.of_N (N.of_uint d), r)
        end
      else None
  end.

Definition hex_of (c : ascii) : option N :=
  let n := N_of_ascii c in
  if (48 <=? n)%N && (n <=? 57)%N then Some (n - 48)%N
  else if (97 <=? n)%N && (n <=? 102)%N then Some (n - 87)%N
  else if (65 <=? n)%N && (n <=? 70)%N then Some (n - 55)%N
  else None.

(** The character an escape letter stands for. *)
Definition unescape (e : ascii) : option ascii :=
  if Ascii.eqb e quote then Some quote
  else if Ascii.eqb e backslash then Some backslash
  else if Ascii.eqb e "/"%char then Some "/"%char
  else if Ascii.eqb e "b"%char then Some "008"%char
  else if Ascii.eqb e "t"%char then Some "009"%char
  else if Ascii.eqb e "n"%char then Some "010"%char
  else if Ascii.eqb e "f"%char then Some "012"%char
  else if Ascii.eqb e "r"%char then Some "013"%char
  else None.

Definition hex4 (a b c d : ascii) : option N :=
  match hex_of a, hex_of b, hex_of c, hex_of d with
  | Some x, Some y, Some z, Some w => Some (((x * 16 + y) * 16 + z) * 16 + w)%N
  | _, _, _, _ => None
  end.

(** The characters of a string literal after its opening quote.  A raw
    control character is refused; so is an escaped code unit above 255,
    which an 8-bit string cannot hold. *)
Fixpoint parse_chars (s : chars) : option (string * chars) :=
  match s with
  | [] => None
  | c :: r =>
      if Ascii.eqb c quote then Some (EmptyString, r)
      else if Ascii.eqb c backslash then
        match r with
        | [] => None
        | e :: r1 =>
            if Ascii.eqb e "u"%char then
              match r1 with
              | h1 :: h2 :: h3 :: h4 :: r2 =>
                  match hex4 h1 h2 h3 h4 with
                  | Some n =>
                      if (n <? 256)%N then
                        match parse_chars r2 with
                        | Some (str, rest) => Some (String (ascii_of_N n) str, rest)
                        | None => None
                        end
                      else None
                  | None => None
                  end
              | _ => None
              end
            else
              match unescape e with
              | Some x =>
                  match parse_chars r1 with
                  | Some (str, rest) => Some (String x str, rest)
                  | None => None
                  end
              | None => None
              end
        end
      else if (N_of_ascii c <? 32)%N then None
      else
        match parse_chars r with
        | Some (str, rest) => Some (String c str, rest)
        | None => None
        end
  end.

(** A repeated key keeps its first place and takes its last value. *)
Definition collect (members : list (string * value)) : list (string * value) :=
  fold_left (fun acc kv => JS.set acc (fst kv) (snd kv)) members [].

(** One step of the reader, given what reads the values, elements and
    members inside. *)
Section Steps.

Variable value_of : chars -> option (value * chars).
Variable elements_of : chars -> option (list value * chars).
Variable members_of : chars -> option (list (string * value) * chars).

Definition value_step (s : chars) : option (value * chars) :=
  match skip_ws s with
  | [] => None
  | c :: r =>
      if Ascii.eqb c "n"%char then
        option_map (pair Null) (strip_prefix (lit "ull") r)
      else if Ascii.eqb c "t"%char then
        option_map (pair (Bool true)) (strip_prefix (lit "rue") r)
      else if Ascii.eqb c "f"%char then
        option_map (pair (Bool false)) (strip_prefix (lit "alse") r)
      else if Ascii.eqb c quote then
        match parse_chars r with
        | Some (str, rest) => Some (Str str, rest)
        | None => None
        end
      else if Ascii.eqb c "["%char then
        match closes "]"%char r with
        | Some rest => Some (Arr [], rest)
        | None =>
            match elements_of r with
            | Some (l, rest) => Some (Arr l, rest)
            | None => None
            end
        end
      else if Ascii.eqb c "{"%char then
        match closes "}"%char r with
        | Some rest => Some (Obj [], rest)
        | None =>
            match members_of r with
            | Some (ms, rest) => Some (Obj (collect ms), rest)
            | None => None
            end
        end
      else
        match parse_number (c :: r) with
        | Some (z, rest) => Some (Num z, rest)
        | None => None
        end
  end.

(** A value, then a comma and more elements, or the closing bracket. *)
Definition elements_step (s : chars) : option (list value * chars) :=
  match value_of s with
  | Some (v, r) =>
      match skip_ws r with
      | c :: r1 =>
          if Ascii.eqb c ","%char then
            match elements_of r1 with
            | Some (vs, rest) => Some (v :: vs, rest)
            | None => None
            end
          else if Ascii.eqb c "]"%char then Some ([v], r1)
          else None
      | [] => None
      end
  | None => None
  end.

(** A key, a colon and a value, then a comma and more members, or the
    closing brace. *)
Definition members_step (s : chars)
  : option (list (string * value) * chars) :=
  match skip_ws s with
  | c :: r =>
      if Ascii.eqb c quote then
        match parse_chars r with
        | Some (k, r1) =>
            match skip_ws r1 with
            | c1 :: r2 =>
                if Ascii.eqb c1 ":"%char then
                  match value_of r2 with
                  | Some (v, r3) =>
                      match skip_ws r3 with
                      | c2 :: r4 =>
                          if Ascii.eqb c2 ","%char then
                            match members_of r4 with
                            | Some (ms, rest) => Some ((k, v) :: ms, rest)
                            | None => None
                            end
                          else if Ascii.eqb c2 "}"%char then Some ([(k, v)], r4)
                          else None
                      | [] => None
                      end
                  | None => None
                  end
                else None
            | [] => None
            end
        | None => None
        end
      else None
  | [] => None
  end.

End Steps.

(** The reader: each nested call takes one unit of fuel. *)
Fixpoint parse_value (fuel : nat) (s : chars) : option (value * chars) :=
  match fuel with
  | O => None
  | S f => value_step (parse_elements f) (parse_members f) s
  end
with parse_elements (fuel : nat) (s : chars) : option (list value * chars) :=
  match fuel with
  | O => None
  | S f => elements_step (parse_value f) (parse_elements f) s
  end
with parse_members (fuel : nat) (s : chars)
  : option (list (string * value) * chars) :=
  match fuel with
  | O => None
  | S f => members_step (parse_value f) (parse_members f) s
  end.

(** [JSON.parse(text)]: one value with nothing but white space around it;
    anything else is a SyntaxError. *)
Definition parse_text (text : string) : option value :=
  let s := list_ascii_of_string text in
  match parse_value (S (List.length s)) s with
  | Some (v, r) =>
      match skip_ws r with
      | [] => Some v
      | _ :: _ => None
      end
  | None => None
  end.

Definition parse (text : string) : result value :=
  match parse_text text with
  | Some v => Ok v
  | None => Throw (SyntaxError "Unexpected token in JSON")
  end.

End JSON.

(** ** The browser around the components *)

Module Browser.

(** [fetch]: what is sent, and how the call ends. *)
Record request : Type := {
  req_method : string;
  req_url : string;
  req_body : option string
}.

Record response : Type := {
  ok : bool;
  status : Z;
  json : result value      (* what [await response.json()] gives *)
}.

Inductive fetch_outcome : Type :=
| Rejected (e : exn)
| Responded (r : response).

Definition awaited (o : fetch_outcome) : result response :=
  match o with
  | Rejected e => Throw e
  | Responded r => Ok r
  end.

(** [localStorage]: the stored items, and the room the origin is given.
    [setItem] throws when the items would outgrow it. *)
Record storage : Type := {
  items : list (string * string);
  quota : N
}.

Fixpoint item (key : string) (l : list (string * string)) : option string :=
  match l with
  | [] => None
  | (k, v) :: rest => if String.eqb k key then Some v else item key rest
  end.

Fixpoint without (key : string) (l : list (string * string))
  : list (string * string) :=
  match l with
  | [] => []
  | (k, v) :: rest =>
      if String.eqb k key then without key rest else (k, v) :: without key rest
  end.

Fixpoint size (l : list (string * string)) : nat :=
  match l with
  | [] => 0
  | (k, v) :: rest => String.length k + String.length v + size rest
  end.

Definition getItem (key : string) (st : storage) : option string :=
  item key (items st).

Definition fits (key text : string) (st : storage) : bool :=
  N.leb (N.of_nat (size ((key, text) :: without key (items st)))) (quota st).

Definition setItem (key text : string) (st : storage) : result storage :=
  if fits key text st
  then Ok {| items := (key, text) :: without key (items st); quota := quota st |}
  else Throw (Error "QuotaExceededError").

Definition removeItem (key : string) (st : storage) : storage :=
  {| items := without key (items st); quota := quota st |}.

(** What a handler does to the outside: the requests it sends and the calls
    it makes on [localStorage], in order. *)
Inductive effect : Type :=
| Fetch (r : request)
| SetItem (key text : string)
| RemoveItem (key : string).

Record world : Type := {
  store : storage;
  log : list effect
}.

Definition emit (e : effect) (w : world) : world :=
  {| store := store w; log := log w ++ [e] |}.

Definition is_fetch (e : effect) : bool :=
  match e with Fetch _ => true | _ => false end.

Definition is_write (e : effect) : bool :=
  match e with SetItem _ _ => true | _ => false end.

Definition network_calls (l : list effect) : list effect := filter is_fetch l.
Definition storage_writes (l : list effect) : list effect := filter is_write l.

(** String(v), as a template literal applies it. *)
Definition decimal (z : Z) : string := string_of_list_ascii (JSON.print_num z).

Fixpoint to_string (v : value) : string :=
  match v with
  | Undefined => "undefined"
  | Null => "null"
  | Bool true => "true"
  | Bool false => "false"
  | Num z => decimal z
  | Str s => s
  | Arr l =>
      String.concat ","
        (map (fun x => match x with
                       | Undefined | Null => EmptyString
                       | _ => to_string x
                       end) l)
  | Obj _ => "[object Object]"
  end.

(** [s.split('/')] and [.pop()] of its result. *)
Fixpoint split (s : string) : list string :=
  match s with
  | EmptyString => [EmptyString]
  | String c rest =>
      if Ascii.eqb c "/"%char then EmptyString :: split rest
      else match split rest with
           | seg :: segs => String c seg :: segs
           | [] => [String c EmptyString]
           end
  end.

Definition pop (segs : list string) : string := List.last segs EmptyString.

(** The own enumerable properties an object spread copies. *)
Definition index_key (i : nat) : string := decimal (Z.of_nat i).

Fixpoint indexed {A} (f : A -> value) (i : nat) (l : list A)
  : list (string * value) :=
  match l with
  | [] => []
  | x :: rest => (index_key i, f x) :: indexed f (S i) rest
  end.

Definition spread (v : value) : list (string * value) :=
  match v with
  | Obj props => props
  | Arr l => indexed (fun x => x) 0 l
  | Str s => indexed (fun c => Str (String c EmptyString)) 0 (list_ascii_of_string s)
  | _ => []
  end.

(** [l.map(f)] with a callback that may throw, and with the position. *)
Fixpoint map_from {A} (i : nat) (f : nat -> value -> result A) (l : list value)
  : result (list A) :=
  match l with
  | [] => Ok []
  | x :: rest => y <- f i x ;; ys <- map_from (S i) f rest ;; Ok (y :: ys)
  end.

(** [Promise.all]: every result in order, or the first rejection. *)
Fixpoint all {A} (l : list (result A)) : result (list A) :=
  match l with
  | [] => Ok []
  | r :: rest => x <- r ;; xs <- all rest ;; Ok (x :: xs)
  end.

Fixpoint mapi {A B} (i : nat) (f : nat -> A -> B) (l : list A) : list B :=
  match l with
  | [] => []
  | x :: rest => f i x :: mapi (S i) f rest
  end.

End Browser.

Import Browser.

(** ** [SubmissionTab]: the in-memory submission list *)

Module SubmissionTab.

(** [handleSubmit]: the new submission goes first. *)
Definition handleSubmit (submission : value) (submissions : list value)
  : list value :=
  submission :: submissions.

(** [fetch(`/api/submission/${submission.operation}`)]; a submission whose
    status reads 'PENDING' is an object. *)
Definition status_request (submission : value) : request :=
  {| req_method := "GET";
     req_url := "/api/submission/" ++ to_string (prop "operation" (spread submission));
     req_body := None |}.

(** The body of the [try] for one pending submission. *)
Definition refreshed (submission : value) (o : fetch_outcome) : result value :=
  response <- awaited o ;;
  data <- json response ;;
  st <- get data "status" ;;
  Ok (Obj (JS.set (spread submission) "status" st)).

(** The callback [refreshSubmissionStatus] maps over the list: what it
    resolves to, and the requests it sends. *)
Definition refresh_one (submission : value) (o : fetch_outcome)
  : result value * list effect :=
  match get submission "status" with
  | Throw e => (Throw e, [])
  | Ok st =>
      if is_str st "PENDING" then
        (Ok match refreshed submission o with
            | Ok updated => updated
            | Throw _ => submission
            end,
         [Fetch (status_request submission)])
      else (Ok submission, [])
  end.

(** [refreshSubmissionStatus]: [net i] is how the call for the record at
    position [i] ends.  The list is replaced once, when every callback has
    settled; if one of them rejects, [Promise.all] rejects and the list is
    left as it was. *)
Definition refreshSubmissionStatus (net : nat -> fetch_outcome)
    (submissions : list value) (w : world) : list value * world :=
  let settled := mapi 0 (fun i s => refresh_one s (net i)) submissions in
  let w' := {| store := store w;
               log := log w ++ List.concat (map snd settled) |} in
  match all (map fst settled) with
  | Ok updatedSubmissions => (updatedSubmissions, w')
  | Throw _ => (submissions, w')
  end.

End SubmissionTab.

(** ** [WebRiskDemo]: scanning, submitting and the persisted history *)

Module WebRiskDemo.

Definition STORAGE_KEY : string := "webRiskSubmissions".

(** [saveSubmissionsToStorage]: the [catch] logs a failed [setItem] and
    nothing else happens. *)
Definition saveSubmissionsToStorage (submissions : list value) (w : world)
  : world :=
  let text := match JSON.stringify (Arr submissions) with
              | Some t => t
              | None => "undefined"
              end in
  let w' := emit (SetItem STORAGE_KEY text) w in
  match setItem STORAGE_KEY text (store w') with
  | Ok st => {| store := st; log := log w' |}
  | Throw _ => w'
  end.

(** [loadSubmissionsFromStorage]: [stored ? JSON.parse(stored) : []], and
    [[]] when anything throws. *)
Definition loadSubmissionsFromStorage (st : storage) : value :=
  match getItem STORAGE_KEY st with
  | Some stored =>
      if truthy (Str stored) then
        match JSON.parse stored with
        | Ok v => v
        | Throw _ => Arr []
        end
      else Arr []
  | None => Arr []
  end.

(** The [useState] cells the handlers below read or set. *)
Record State : Type := {
  url : string;
  results : list value;
  loading : bool;
  submissions : list value;
  submissionForm : list (string * value);   (* the form object's properties *)
  isSubmitting : bool
}.

Definition emptyForm : list (string * value) :=
  [("url", Str EmptyString); ("evidence", Str EmptyString);
   ("abuseType", Str EmptyString);
   ("platform", Str "PLATFORM_UNSPECIFIED");
   ("regionCodes", Arr [Str "US"])].

Definition ABUSE_TYPES : list (string * string) :=
  [("MALWARE", "The URI contains malware");
   ("SOCIAL_ENGINEERING", "The URI contains social engineering");
   ("UNWANTED_SOFTWARE", "The URI contains unwanted software")].

Definition PLATFORMS : list (string * string) :=
  [("PLATFORM_UNSPECIFIED", "Unspecified"); ("ANDROID", "Android");
   ("IOS", "iOS"); ("MACOS", "macOS"); ("WINDOWS", "Windows")].

(** The two literal arrays of confidence levels. *)
Definition MEDIUM_UP : list string :=
  ["MEDIUM"; "HIGH"; "HIGHER"; "EXTREMELY_HIGH"].

Definition SAFE_LOW : list string := ["SAFE"; "LOW"].

(** [score => levels.includes(score.confidenceLevel)] *)
Definition level_in (levels : list string) (score : value) : result bool :=
  c <- get score "confidenceLevel" ;; Ok (includes levels c).

(** [hasHighRisk]:
    [scores?.some(score => [...].includes(score.confidenceLevel))] *)
Definition hasHighRisk (scores : value) : result value :=
  match scores with
  | Undefined | Null => Ok Undefined
  | Arr l => b <- some (level_in MEDIUM_UP) l ;; Ok (Bool b)
  | _ => Throw (not_a_function "scores.some")
  end.

(** [scores.find(...)?.threatType || ''], the abuse type
    [handleQuickSubmit] puts in the form. *)
Definition recommendAbuseType (scores : value) : result value :=
  found <-
    match scores with
    | Arr l => find (level_in MEDIUM_UP) l
    | Undefined | Null => Throw (cannot_read scores "find")
    | _ => Throw (not_a_function "result.scores.find")
    end ;;
  t <- get_opt found "threatType" ;;
  Ok (if truthy t then t else Str EmptyString).

(** [handleQuickSubmit]: the form with the url and the abuse type of the
    result written over. *)
Definition handleQuickSubmit (result : value) (s : State) : JS.result State :=
  u <- get result "url" ;;
  scores <- get result "scores" ;;
  a <- recommendAbuseType scores ;;
  Ok {| url := url s; results := results s; loading := loading s;
        submissions := submissions s;
        submissionForm :=
          JS.set (JS.set (submissionForm s) "url" u) "abuseType" a;
        isSubmitting := isSubmitting s |}.

(** [clearSubmissionHistory]: [confirmed] is the answer of
    [window.confirm]. *)
Definition clearSubmissionHistory (confirmed : bool) (s : State) (w : world)
  : State * world :=
  if confirmed then
    ({| url := url s; results := results s; loading := loading s;
        submissions := [];
        submissionForm := submissionForm s; isSubmitting := isSubmitting s |},
     let w' := emit (RemoveItem STORAGE_KEY) w in
     {| store := removeItem STORAGE_KEY (store w'); log := log w' |})
  else (s, w).

(** [xs.every(f)] on whatever [xs] is. *)
Definition every_of (expr : string) (f : value -> result bool) (xs : value)
  : result bool :=
  match xs with
  | Arr l => every f l
  | Undefined | Null => Throw (cannot_read xs "every")
  | _ => Throw (not_a_function expr)
  end.

(** The condition of the icon on a result card,
    [result.scores?.every(in SAFE, LOW) &&
     (!result.resolvedUriScore?.scores ||
      result.resolvedUriScore.scores.every(in SAFE, LOW))]:
    the check mark when it holds, the warning triangle otherwise. *)
Definition safeIcon (result : value) : JS.result bool :=
  scores <- get result "scores" ;;
  first <-
    (if nullish scores then Ok false
     else every_of "result.scores.every" (level_in SAFE_LOW) scores) ;;
  if first then
    resolved <- get result "resolvedUriScore" ;;
    rscores <- get_opt resolved "scores" ;;
    if negb (truthy rscores) then Ok true
    else every_of "result.resolvedUriScore.scores.every" (level_in SAFE_LOW) rscores
  else Ok false.

(** The request of [handleScan]; its address is written in single quotes,
    so the placeholder goes out as it stands. *)
Definition scan_request (u : string) : request :=
  {| req_method := "POST";
     req_url := "${backendBaseUrl}/api/scan";
     req_body := JSON.stringify (Obj [("url", Str u)]) |}.

(** The [try] block of [handleScan], up to the result object. *)
Definition scanned (now : Z) (iso : string) (u : string) (o : fetch_outcome)
  : result value :=
  response <- awaited o ;;
  data <- json response ;;
  scores <- get data "scores" ;;
  if negb (truthy scores) then Throw (Error "No scores received from API")
  else
    isSafe <- every_of "data.scores.every"
                (fun score => c <- get score "confidenceLevel" ;; Ok (is_str c "SAFE"))
                scores ;;
    resolved <- get data "resolvedUriScore" ;;
    Ok (Obj [("id", Num now); ("url", Str u);
             ("status", Str (if isSafe then "safe" else "threat"));
             ("timestamp", Str iso);
             ("scores", scores);
             ("resolvedUriScore", resolved)]).

(** The result the [catch] of [handleScan] builds:
    [details: error.message || 'Failed to scan URL']. *)
Definition scan_failure (now : Z) (iso : string) (u : string) (error : exn)
  : value :=
  Obj [("id", Num now); ("url", Str u);
       ("status", Str "error");
       ("timestamp", Str iso);
       ("details", if truthy (Str (message error)) then Str (message error)
                   else Str "Failed to scan URL")].

(** [handleScan]: [now] and [iso] are the readings of [Date.now()] and
    [new Date().toISOString()], [o] is how the request ends. *)
Definition handleScan (now : Z) (iso : string) (o : fetch_outcome)
    (s : State) (w : world) : State * world :=
  let result :=
    match scanned now iso (url s) o with
    | Ok r => r
    | Throw error => scan_failure now iso (url s) error
    end in
  ({| url := EmptyString; results := result :: results s; loading := false;
      submissions := submissions s; submissionForm := submissionForm s;
      isSubmitting := isSubmitting s |},
   emit (Fetch (scan_request (url s))) w).

(** The request of [handleSubmit]. *)
Definition submit_request (form : list (string * value)) : request :=
  {| req_method := "POST";
     req_url := "/api/submit";
     req_body := JSON.stringify
                   (Obj [("url", prop "url" form);
                         ("evidence", prop "evidence" form);
                         ("abuseType", prop "abuseType" form);
                         ("platform", prop "platform" form);
                         ("regionCodes", prop "regionCodes" form)]) |}.

(** The [try] block of [handleSubmit] after the request: the new record when
    the response carries an operation, nothing when it does not. *)
Definition submitted (now : Z) (iso : string) (form : list (string * value))
    (o : fetch_outcome)
  : result (option value) :=
  response <- awaited o ;;
  data <- json response ;;
  operation <- get data "operation" ;;
  if truthy operation then
    timestamp <- get data "timestamp" ;;
    Ok (Some (Obj [("id", Num now);
                   ("url", prop "url" form);
                   ("operation", operation);
                   ("timestamp", timestamp);
                   ("lastUpdated", Str iso);
                   ("evidence", prop "evidence" form);
                   ("abuseType", prop "abuseType" form);
                   ("platform", prop "platform" form);
                   ("status", Str "PENDING")]))
  else Ok None.

(** [handleSubmit]: the request goes out first; a response with an
    operation puts the new record in front, saves the list and resets the
    form, anything else leaves list and form as they were. *)
Definition handleSubmit (now : Z) (iso : string) (o : fetch_outcome)
    (s : State) (w : world) : State * world :=
  let w1 := emit (Fetch (submit_request (submissionForm s))) w in
  match submitted now iso (submissionForm s) o with
  | Ok (Some newSubmission) =>
      let updatedSubmissions := newSubmission :: submissions s in
      ({| url := url s; results := results s; loading := loading s;
          submissions := updatedSubmissions;
          submissionForm := emptyForm; isSubmitting := false |},
       saveSubmissionsToStorage updatedSubmissions w1)
  | Ok None | Throw _ =>
      ({| url := url s; results := results s; loading := loading s;
          submissions := submissions s;
          submissionForm := submissionForm s; isSubmitting := false |},
       w1)
  end.

(** [fetch(`/api/submission/${operationId}`)] *)
Definition poll_request (id : string) : request :=
  {| req_method := "GET"; req_url := "/api/submission/" ++ id; req_body := None |}.

(** The callback of the [map] in [refreshSubmissionStatus], for an
    [operation] that is the string [target]; [iso] is the clock reading
    taken for this record. *)
Definition update (target : string) (data : value) (iso : string) (sub : value)
  : result value :=
  op <- get sub "operation" ;;
  if is_str op target then
    st <- get data "status" ;;
    details <- get data "details" ;;
    Ok (Obj (JS.set (JS.set (JS.set (spread sub) "status" st)
                       "lastUpdated" (Str iso))
               "details" details))
  else Ok sub.

(** What follows the request in [refreshSubmissionStatus]. *)
Definition polled (target : string) (clock : nat -> string)
    (o : fetch_outcome) (subs : list value) : result (list value) :=
  response <- awaited o ;;
  if negb (ok response) then
    Throw (Error ("HTTP error " ++ decimal (status response)))
  else
    data <- json response ;;
    map_from 0 (fun i sub => update target data (clock i) sub) subs.

(** [refreshSubmissionStatus(operation)]: [clock i] is the reading of
    [new Date().toISOString()] for the record at position [i].  Only a
    string has [split]: on anything else the first line throws, and the
    [catch] logs it. *)
Definition refreshSubmissionStatus (operation : value) (clock : nat -> string)
    (o : fetch_outcome) (s : State) (w : world) : State * world :=
  match operation with
  | Str target =>
      let operationId := pop (split target) in
      let w1 := emit (Fetch (poll_request operationId)) w in
      match polled target clock o (submissions s) with
      | Ok updatedSubmissions =>
          ({| url := url s; results := results s; loading := loading s;
              submissions := updatedSubmissions;
              submissionForm := submissionForm s;
              isSubmitting := isSubmitting s |},
           saveSubmissionsToStorage updatedSubmissions w1)
      | Throw _ => (s, w1)
      end
  | _ => (s, w)
  end.

End WebRiskDemo.

(** ** What survives the trip through JSON text *)

Module Wire.

Import JSON.

(** A value JSON text can hold: nothing undefined in it, and no key twice in
    an object. *)
Inductive storable : value -> Prop :=
| storable_null : storable Null
| storable_bool b : storable (Bool b)
| storable_num z : storable (Num z)
| storable_str s : storable (Str s)
| storable_arr l : Forall storable l -> storable (Arr l)
| storable_obj props :
    NoDup (map fst props) ->
    Forall (fun kv => storable (snd kv)) props ->
    storable (Obj props).

(** A value as the components hold it: it may be or contain undefined, but
    an object has each key once. *)
Inductive well_formed : value -> Prop :=
| wf_undefined : well_formed Undefined
| wf_null : well_formed Null
| wf_bool b : well_formed (Bool b)
| wf_num z : well_formed (Num z)
| wf_str s : well_formed (Str s)
| wf_arr l : Forall well_formed l -> well_formed (Arr l)
| wf_obj props :
    NoDup (map fst props) ->
    Forall (fun kv => well_formed (snd kv)) props ->
    well_formed (Obj props).

(** What is left of a value once written: an undefined element of an array
    has become null, a property with an undefined value is gone. *)
Fixpoint to_json (v : value) : value :=
  match v with
  | Undefined => Null
  | Arr l => Arr (map to_json l)
  | Obj props =>
      Obj (flat_map (fun kv : string * value =>
                       match kv with
                       | (_, Undefined) => []
                       | (k, x) => [(k, to_json x)]
                       end) props)
  | _ => v
  end.

Definition survivors (props : list (string * value)) : list (string * value) :=
  flat_map (fun kv : string * value =>
              match kv with
              | (_, Undefined) => []
              | (k, x) => [(k, to_json x)]
              end) props.

(** The characters a written value can start with, and those a number
    starts with. *)
Definition heads : list ascii :=
  ["n"; "t"; "f"; quote; "["; "{"; "-"; "0"; "1"; "2"; "3"; "4"; "5"; "6"; "7";
   "8"; "9"]%char.

Definition number_heads : list ascii :=
  ["-"; "0"; "1"; "2"; "3"; "4"; "5"; "6"; "7"; "8"; "9"]%char.

(** What can follow a written value: the end of the text, or the comma or
    bracket of the array or object it sits in. *)
Definition after_value (rest : chars) : Prop :=
  match rest with
  | [] => True
  | c :: _ => c = ","%char \/ c = "]"%char \/ c = "}"%char
  end.

(** One written member of an object. *)
Definition member (kv : string * value) : chars :=
  print_string (fst kv) ++ ":"%char :: print (snd kv).

(** The reader, given enough fuel, finds [v] in front of what follows it. *)
Definition reads_back (v : value) : Prop :=
  forall (fuel : nat) (rest : chars),
    List.length (print v) < fuel ->
    after_value rest ->
    parse_value fuel (print v ++ rest) = Some (v, rest).

(** What the reader [p] finds, it finds by using up some of the text, and
    the reader [p'] finds it too when the used part is within [budget]. *)
Definition within {A} (p p' : chars -> option (A * chars)) (budget : nat) : Prop :=
  forall (s : chars) (x : A) (r : chars),
    p s = Some (x, r) ->
    List.length r < List.length s /\
    (List.length s - List.length r <= budget -> p' s = Some (x, r)).

End Wire.

Import Wire.

(** ** The words of the specification *)

Module Spec.

Import WebRiskDemo.

(** A score entry is an object; its confidence level is whatever its
    [confidenceLevel] property holds. *)
Definition is_object (v : value) : Prop := exists props, v = Obj props.

Definition has_level (levels : list string) (entry : value) : Prop :=
  exists c, get entry "confidenceLevel" = Ok (Str c) /\ In c levels.

(** An entry of the scanning service: an object whose threat type is a
    non-empty string. *)
Definition is_score_entry (v : value) : Prop :=
  exists props t,
    v = Obj props /\ prop "threatType" props = Str t /\ t <> EmptyString.

(** The verdict the specification asks for: safe when every entry of the
    scores, and of the resolved scores when there are any, is SAFE or LOW. *)
Definition specified_safe (scores : list value) (resolved : option (list value))
  : Prop :=
  Forall (has_level SAFE_LOW) scores /\
  match resolved with
  | None => True
  | Some rscores => Forall (has_level SAFE_LOW) rscores
  end.

(** A form the specification wants refused: the url or the evidence is
    empty, or the abuse type or the platform is not a key of [ABUSE_TYPES]
    or [PLATFORMS]. *)
Definition invalid_form (form : list (string * value)) : Prop :=
  prop "url" form = Str EmptyString \/
  prop "evidence" form = Str EmptyString \/
  (forall a, In a (map fst ABUSE_TYPES) -> prop "abuseType" form <> Str a) \/
  (forall p, In p (map fst PLATFORMS) -> prop "platform" form <> Str p).

(** A submission record as the components hold it: an object whose
    properties are JSON values or undefined ([details] after a refresh
    whose answer had none). *)
Definition is_record (v : value) : Prop :=
  exists props,
    v = Obj props /\
    NoDup (map fst props) /\
    Forall (fun kv => snd kv = Undefined \/ storable (snd kv)) props.

(** How a scan can fail: the request is rejected, the body does not parse,
    or the parsed body has no [scores]. *)
Inductive scan_fault : fetch_outcome -> exn -> Prop :=
| transport_fault e : scan_fault (Rejected e) e
| parse_fault r e : json r = Throw e -> scan_fault (Responded r) e
| scores_missing r data :
    json r = Ok data ->
    get data "scores" = Ok Undefined ->
    scan_fault (Responded r) (Error "No scores received from API").

End Spec.

Import Spec.

(** ** Sample data *)

Module Samples.

Import WebRiskDemo.

Definition entry (threatType confidenceLevel : string) : value :=
  Obj [("threatType", Str threatType); ("confidenceLevel", Str confidenceLevel)].

Definition sample_scores : list value :=
  [entry "MALWARE" "SAFE"; entry "SOCIAL_ENGINEERING" "HIGH";
   entry "UNWANTED_SOFTWARE" "MEDIUM"].

Definition low_only_scores : list value := [entry "MALWARE" "LOW"].
Definition all_safe_scores : list value := [entry "MALWARE" "SAFE"].
Definition risky_scores : list value := [entry "SOCIAL_ENGINEERING" "HIGH"].

Definition low_only_response : value :=
  Obj [("scores", Arr low_only_scores)].

Definition resolved_risky_response : value :=
  Obj [("scores", Arr all_safe_scores);
       ("resolvedUriScore",
        Obj [("resolvedUri", Str "http://evil.example/landing");
             ("scores", Arr risky_scores)])].

(** A response with status 200 whose body parses to [data]. *)
Definition served (data : value) : fetch_outcome :=
  Responded {| ok := true; status := 200; json := Ok data |}.

Definition sample_world : world :=
  {| store := {| items := []; quota := 5000000 |}; log := [] |}.

Definition sample_state : State :=
  {| url := "http://evil.example"; results := []; loading := true;
     submissions := []; submissionForm := emptyForm; isSubmitting := false |}.

(** A record as [WebRiskDemo.handleSubmit] builds it, and one as the
    form of [SubmissionTab] hands it over. *)
Definition record (id : Z) (operation status : string) : value :=
  Obj [("id", Num id); ("url", Str "http://evil.example");
       ("operation", Str operation);
       ("timestamp", Str "2023-11-14T22:13:20Z");
       ("lastUpdated", Str "2023-11-14T22:13:21.000Z");
       ("evidence", Str "imitates a bank login page");
       ("abuseType", Str "SOCIAL_ENGINEERING");
       ("platform", Str "ANDROID");
       ("status", Str status)].

Definition tab_record (operation status : string) : value :=
  Obj [("url", Str "http://evil.example");
       ("operation", Str operation);
       ("timestamp", Str "2023-11-14T22:13:20Z");
       ("evidence", Str "imitates a bank login page");
       ("type", Str "phishing");
       ("status", Str status)].

Definition history (l : list value) : State :=
  {| url := EmptyString; results := []; loading := false;
     submissions := l; submissionForm := emptyForm; isSubmitting := false |}.

(** The form of the specification's scenario: everything filled in but the
    evidence. *)
Definition empty_evidence_form : list (string * value) :=
  [("url", Str "http://x"); ("evidence", Str EmptyString);
   ("abuseType", Str "MALWARE"); ("platform", Str "ANDROID");
   ("regionCodes", Arr [Str "US"])].

(** A result card whose only entry has a threat type that is not a key of
    [ABUSE_TYPES], and the form after "Submit URL" on that card
    ([handleQuickSubmit]) and some evidence typed into the inline form. *)
Definition extended_coverage_result : value :=
  Obj [("id", Num 1700000000000); ("url", Str "http://evil.example");
       ("status", Str "threat");
       ("timestamp", Str "2023-11-14T22:13:20.000Z");
       ("scores", Arr [entry "SOCIAL_ENGINEERING_EXTENDED_COVERAGE" "HIGH"]);
       ("resolvedUriScore", Undefined)].

Definition quick_form : list (string * value) :=
  [("url", Str "http://evil.example");
   ("evidence", Str "imitates a bank login page");
   ("abuseType", Str "SOCIAL_ENGINEERING_EXTENDED_COVERAGE");
   ("platform", Str "PLATFORM_UNSPECIFIED");
   ("regionCodes", Arr [Str "US"])].

Definition filling (form : list (string * value)) : State :=
  {| url := EmptyString; results := []; loading := false;
     submissions := []; submissionForm := form; isSubmitting := true |}.

(** Two pending records; the first poll is rejected, the second answers
    SUCCEEDED. *)
Definition two_pending : list value :=
  [tab_record "operations/1" "PENDING"; tab_record "operations/2" "PENDING"].

Definition first_fails (i : nat) : fetch_outcome :=
  match i with
  | O => Rejected (TypeError "Failed to fetch")
  | _ => served (Obj [("status", Str "SUCCEEDED")])
  end.

End Samples.

Import Samples.

(** ** [SubmissionForm] and [SubmissionHistory]: the parts of [SubmissionTab] *)

Module SubmissionForm.

(** The [useState] cells of the form; the inputs put strings in them. *)
Record Fields : Type := {
  url : string;
  evidence : string;
  submissionType : string;
  isSubmitting : bool
}.

(** The request of [handleSubmit]. *)
Definition submit_request (f : Fields) : request :=
  {| req_method := "POST";
     req_url := "/api/submit";
     req_body := JSON.stringify
                   (Obj [("url", Str (url f));
                         ("evidence", Str (evidence f));
                         ("type", Str (submissionType f))]) |}.

(** The [try] block of [handleSubmit] after the request: the object handed
    to [onSubmit] when the answer carries an operation, nothing otherwise. *)
Definition accepted (f : Fields) (o : fetch_outcome) : result (option value) :=
  response <- awaited o ;;
  data <- json response ;;
  operation <- get data "operation" ;;
  if truthy operation then
    timestamp <- get data "timestamp" ;;
    Ok (Some (Obj [("url", Str (url f));
                   ("operation", operation);
                   ("timestamp", timestamp);
                   ("evidence", Str (evidence f));
                   ("type", Str (submissionType f));
                   ("status", Str "PENDING")]))
  else Ok None.

(** [handleSubmit], with [SubmissionTab.handleSubmit] as its [onSubmit]: the
    fields and the list of the parent after the call. *)
Definition handleSubmit (o : fetch_outcome) (f : Fields)
    (submissions : list value) (w : world) : Fields * list value * world :=
  let w1 := emit (Fetch (submit_request f)) w in
  match accepted f o with
  | Ok (Some submission) =>
      ({| url := EmptyString; evidence := EmptyString;
          submissionType := EmptyString; isSubmitting := false |},
       SubmissionTab.handleSubmit submission submissions, w1)
  | Ok None | Throw _ =>
      ({| url := url f; evidence := evidence f;
          submissionType := submissionType f; isSubmitting := false |},
       submissions, w1)
  end.

End SubmissionForm.

(** What a status badge shows: the icon component and its class, the text
    and the class of the badge. *)
Record badge : Type := {
  icon : string;
  iconClass : string;
  text : string;
  className : string
}.

Module SubmissionHistory.

(** [getStatusDisplay]: a [switch] on the status. *)
Definition getStatusDisplay (status : value) : badge :=
  if is_str status "SUCCEEDED" then
    {| icon := "CheckCircle"; iconClass := "h-5 w-5 text-green-500";
       text := "Added to blocklist";
       className := "bg-green-100 text-green-700" |}
  else if is_str status "CLOSED" then
    {| icon := "AlertTriangle"; iconClass := "h-5 w-5 text-gray-500";
       text := "Not added to blocklist";
       className := "bg-gray-100 text-gray-700" |}
  else
    {| icon := "Clock"; iconClass := "h-5 w-5 text-blue-500";
       text := "Processing";
       className := "bg-blue-100 text-blue-700" |}.

End SubmissionHistory.

(** ** What [WebRiskDemo] renders *)

Module Render.

Import WebRiskDemo.

(** [getConfidenceLevelStyle]: a [switch] on the level. *)
Definition getConfidenceLevelStyle (level : value) : string :=
  if includes ["SAFE"; "LOW"] level then "bg-green-100 text-green-700"
  else if is_str level "MEDIUM" then "bg-orange-100 text-orange-700"
  else if includes ["HIGH"; "HIGHER"; "EXTREMELY_HIGH"] level
  then "bg-red-100 text-red-700"
  else "bg-gray-100 text-gray-700".

(** [getSubmissionStatusStyle]: a [switch] on the status. *)
Definition getSubmissionStatusStyle (status : value) : badge :=
  if is_str status "SUCCEEDED" then
    {| icon := "CheckCircle"; iconClass := "h-5 w-5 text-green-500";
       text := "Added to blocklist";
       className := "bg-green-100 text-green-700" |}
  else if is_str status "CLOSED" then
    {| icon := "AlertTriangle"; iconClass := "h-5 w-5 text-gray-500";
       text := "Not added";
       className := "bg-gray-100 text-gray-700" |}
  else
    {| icon := "Clock"; iconClass := "h-5 w-5 text-blue-500";
       text := "Processing";
       className := "bg-blue-100 text-blue-700" |}.

(** [result.scores && hasHighRisk(result.scores)]: whether a result card
    shows the "High risk detected" line with its "Submit URL" button. *)
Definition offersSubmit (result : value) : JS.result bool :=
  scores <- get result "scores" ;;
  if truthy scores then
    risky <- hasHighRisk scores ;; Ok (truthy risky)
  else Ok false.

(** [disabled={!url || loading}] on the "Scan URL" button. *)
Definition scanDisabled (s : State) : bool :=
  negb (truthy (Str (url s))) || loading s.

(** [submissions.length > 0], the condition of the "Clear History" button. *)
Definition showsClearHistory (s : State) : bool :=
  Nat.ltb 0 (List.length (submissions s)).

End Render.

(** ** Shapes of answers and of entries *)

Module Shapes.
Import WebRiskDemo.

(** How an answer of the scanning service gives its resolved scores: not at
    all, or as an object with a [scores] array of objects. *)
Definition resolved_as (data : value) (resolved : option (list value)) : Prop :=
  match resolved with
  | None => get data "resolvedUriScore" = Ok Undefined
  | Some rscores =>
      exists rprops,
        get data "resolvedUriScore" = Ok (Obj rprops) /\
        prop "scores" rprops = Arr rscores /\
        Forall is_object rscores
  end.

(** [getConfidenceLevelStyle(score.confidenceLevel)], the class of the chip
    of one entry. *)
Definition chip (score : value) : result string :=
  c <- get score "confidenceLevel" ;; Ok (Render.getConfidenceLevelStyle c).

Definition green : string := "bg-green-100 text-green-700".
Definition orange : string := "bg-orange-100 text-orange-700".
Definition red : string := "bg-red-100 text-red-700".
Definition gray : string := "bg-gray-100 text-gray-700".

(** An entry whose level is none of the six the component names. *)
Definition unknown_level (entry : value) : Prop :=
  is_object entry /\ ~ has_level SAFE_LOW entry /\ ~ has_level MEDIUM_UP entry.

End Shapes.

Import Shapes.

(** ** Segments of an operation name *)

Module Segments.

(** A string without a slash. *)
Fixpoint slash_free (s : string) : Prop :=
  match s with
  | EmptyString => True
  | String c rest => c <> "/"%char /\ slash_free rest
  end.

End Segments.

Import Segments.

(** ** How a request can fail *)

Module Faults.

(** How a status request can fail: it is rejected, the answer is not ok, or
    its body does not parse. *)
Inductive poll_fault : fetch_outcome -> Prop :=
| poll_rejected e : poll_fault (Rejected e)
| poll_not_ok r : ok r = false -> poll_fault (Responded r)
| poll_unparsable r e : json r = Throw e -> poll_fault (Responded r).

(** How a submission can come to nothing: the request is rejected, the body
    does not parse, or the parsed body has no operation. *)
Inductive submit_fault : fetch_outcome -> Prop :=
| submit_rejected e : submit_fault (Rejected e)
| submit_unparsable r e : json r = Throw e -> submit_fault (Responded r)
| submit_without_operation r data operation :
    json r = Ok data ->
    get data "operation" = Ok operation ->
    truthy operation = false ->
    submit_fault (Responded r).

End Faults.

Import Faults.

(** ** The stored history and the one in memory *)

Module Saved.
Import WebRiskDemo.

(** Whether the store has room for the text [saveSubmissionsToStorage]
    writes for a list. *)
Definition has_room (l : list value) (st : storage) : bool :=
  match JSON.stringify (Arr l) with
  | Some text => fits STORAGE_KEY text st
  | None => fits STORAGE_KEY "undefined" st
  end.

(** The stored history is the one in memory: what the next page load would
    read is the list the component holds, as JSON text keeps it. *)
Definition saved (s : State) (w : world) : Prop :=
  Forall well_formed (submissions s) /\
  loadSubmissionsFromStorage (store w) = Arr (map to_json (submissions s)).

(** A body that parses, parses to a value with no key twice. *)
Definition well_served (o : fetch_outcome) : Prop :=
  forall r data, o = Responded r -> json r = Ok data -> well_formed data.

Definition well_formed_form (form : list (string * value)) : Prop :=
  Forall (fun kv => well_formed (snd kv)) form.

(** A store that is full as it stands. *)
Definition full_world : world :=
  {| store := {| items := [("theme", "dark")]; quota := 9 |}; log := [] |}.

End Saved.

Import Saved.

(** ** Pending records *)

Module Pending.

(** [submission.status === 'PENDING'], where the status can be read. *)
Definition isPending (submission : value) : bool :=
  match get submission "status" with
  | Ok st => is_str st "PENDING"
  | Throw _ => false
  end.

(** A status the history shows as "Processing" although it is not PENDING. *)
Definition unknown_status (st : value) : Prop :=
  is_str st "PENDING" = false /\
  is_str st "SUCCEEDED" = false /\
  is_str st "CLOSED" = false.

End Pending.

Import Pending.

(** ** Reading back what was written *)

Section Serialisation.

Import JSON.

(** *** Numbers *)

Lemma read_digits_print (u : uint) (rest : chars) :
  match rest with [] => True | c :: _ => digit_of c = None end ->
  read_digits (uint_chars u ++ rest) = (u, rest).
Proof.
  intros Hrest. induction u; simpl; try (rewrite IHu; reflexivity).
  destruct rest as [|c r]; [reflexivity|]. simpl. rewrite Hrest. reflexivity.
Qed.

Lemma uint_beq_refl (u : uint) : uint_beq u u = true.
Proof. induction u; simpl; auto. Qed.

Lemma to_uint_normal (n : N) : unorm (N.to_uint n) = N.to_uint n.
Proof.
  rewrite <- (DecimalN.Unsigned.to_of (N.to_uint n)).
  now rewrite DecimalN.Unsigned.of_to.
Qed.

Lemma to_uint_nonnil (n : N) : N.to_uint n <> Nil.
Proof.
  destruct n; simpl; [discriminate|]. apply DecimalPos.Unsigned.to_uint_nonnil.
Qed.

Lemma parse_number_print (z : Z) (rest : chars) :
  after_value rest ->
  parse_number (print_num z ++ rest) = Some (z, rest).
Proof.
  intros Hrest.
  assert (Hd : match rest with [] => True | c :: _ => digit_of c = None end).
  { destruct rest as [|c r]; [exact I|].
    destruct Hrest as [->|[->| ->]]; reflexivity. }
  unfold parse_number, print_num.
  pose proof (to_uint_nonnil (Z.abs_N z)) as Hnn.
  pose proof (to_uint_normal (Z.abs_N z)) as Hnorm.
  pose proof (DecimalN.Unsigned.of_to (Z.abs_N z)) as Hof.
  destruct (Z.ltb_spec z 0) as [Hneg|Hpos].
  - simpl. rewrite read_digits_print by assumption.
    destruct (N.to_uint (Z.abs_N z)) eqn:E; try contradiction;
      rewrite Hnorm, uint_beq_refl, Hof;
      (replace (- Z.of_N (Z.abs_N z))%Z with z by (rewrite N2Z.inj_abs_N; lia));
      destruct rest as [|c r]; try reflexivity;
      destruct Hrest as [->|[->| ->]]; reflexivity.
  - destruct (N.to_uint (Z.abs_N z)) eqn:E; try contradiction;
      simpl; rewrite read_digits_print by assumption;
      rewrite Hnorm, uint_beq_refl, Hof;
      (replace (Z.of_N (Z.abs_N z))%Z with z by (rewrite N2Z.inj_abs_N; lia));
      destruct rest as [|c r]; try reflexivity;
      destruct Hrest as [->|[->| ->]]; reflexivity.
Qed.

(** *** Strings *)

Lemma parse_chars_escape (c : ascii) (tail : chars) :
  parse_chars (escape c ++ tail) =
    match parse_chars tail with
    | Some (str, rest) => Some (String c str, rest)
    | None => None
    end.
Proof.
  destruct c as [[] [] [] [] [] [] [] []]; reflexivity.
Qed.

Lemma parse_chars_print (s : string) (rest : chars) :
  parse_chars (escape_all s ++ quote :: rest) = Some (s, rest).
Proof.
  induction s as [|c s IH]; simpl.
  - reflexivity.
  - rewrite <- app_assoc, parse_chars_escape, IH. reflexivity.
Qed.

(** *** The first character decides *)

Lemma print_num_head (z : Z) :
  exists c r, print_num z = c :: r /\ In c number_heads.
Proof.
  unfold print_num. destruct (z <? 0)%Z.
  - eexists _, _. split; [reflexivity|]. simpl. tauto.
  - pose proof (to_uint_nonnil (Z.abs_N z)) as Hnn.
    destruct (N.to_uint (Z.abs_N z)); try contradiction;
      eexists _, _; (split; [reflexivity|]); simpl; tauto.
Qed.

Lemma print_head (v : value) :
  exists c r, print v = c :: r /\ In c heads.
Proof.
  destruct v as [| |[]|z|s|l|props];
    try (eexists _, _; split; [reflexivity|simpl; tauto]).
  destruct (print_num_head z) as (c & r & E & Hin).
  exists c, r. split; [assumption|]. simpl in *. tauto.
Qed.

Lemma print_nonempty (v : value) : 0 < List.length (print v).
Proof.
  destruct (print_head v) as (c & r & E & _). rewrite E. simpl. lia.
Qed.

Lemma parse_value_number (f : nat) (c : ascii) (r : chars) :
  In c number_heads ->
  parse_value (S f) (c :: r) =
    match parse_number (c :: r) with
    | Some (z, rest) => Some (Num z, rest)
    | None => None
    end.
Proof.
  intros Hin. simpl in Hin.
  repeat (destruct Hin as [<-|Hin]; [reflexivity|]). contradiction.
Qed.

Lemma parse_value_string (f : nat) (r : chars) :
  parse_value (S f) (quote :: r) =
    match parse_chars r with
    | Some (str, rest) => Some (Str str, rest)
    | None => None
    end.
Proof. reflexivity. Qed.

Lemma parse_value_array (f : nat) (c : ascii) (r : chars) :
  In c heads ->
  parse_value (S f) ("["%char :: c :: r) =
    match parse_elements f (c :: r) with
    | Some (l, rest) => Some (Arr l, rest)
    | None => None
    end.
Proof.
  intros Hin. simpl in Hin.
  repeat (destruct Hin as [<-|Hin]; [reflexivity|]). contradiction.
Qed.

Lemma parse_value_object (f : nat) (r : chars) :
  parse_value (S f) ("{"%char :: quote :: r) =
    match parse_members f (quote :: r) with
    | Some (ms, rest) => Some (Obj (collect ms), rest)
    | None => None
    end.
Proof. reflexivity. Qed.

Lemma join_head (parts : list chars) (p : chars) (tail : chars) :
  join (p :: parts) ++ tail = p ++ match parts with
                                   | [] => tail
                                   | _ :: _ => ","%char :: join parts ++ tail
                                   end.
Proof.
  destruct parts; simpl; [reflexivity|]. now rewrite <- app_assoc.
Qed.

(** *** Arrays *)

Lemma parse_elements_print (l : list value) :
  Forall reads_back l ->
  l <> [] ->
  forall (fuel : nat) (rest : chars),
    List.length (join (map print l)) + 1 < fuel ->
    parse_elements fuel (join (map print l) ++ "]"%char :: rest) = Some (l, rest).
Proof.
  induction 1 as [|x l Hx Hl IH]; intros Hne fuel rest Hfuel; [contradiction|].
  destruct fuel as [|f]; [lia|].
  cbn [parse_elements]. unfold elements_step.
  destruct l as [|y l'].
  - change (join (map print [x])) with (print x) in *.
    rewrite Hx; [|lia|simpl; tauto]. reflexivity.
  - change (join (map print (x :: y :: l')))
      with (print x ++ ","%char :: join (map print (y :: l'))) in *.
    rewrite <- app_assoc. rewrite length_app in Hfuel.
    cbn [List.length] in Hfuel.
    rewrite Hx; [|lia|simpl; tauto].
    cbn [List.app skip_ws is_ws Ascii.eqb Bool.eqb orb].
    rewrite IH; [reflexivity|discriminate|].
    pose proof (print_nonempty x). lia.
Qed.

(** *** Objects *)

Lemma members_defined (props : list (string * value)) :
  Forall (fun kv => snd kv <> Undefined) props ->
  flat_map (fun kv : string * value =>
              match kv with
              | (_, Undefined) => []
              | (k, x) => [print_string k ++ ":"%char :: print x]
              end) props
  = map member props.
Proof.
  induction 1 as [|[k x] props Hx _ IH]; [reflexivity|].
  cbn [flat_map map]. rewrite IH. destruct x; try reflexivity. now contradiction Hx.
Qed.

Lemma member_length (kv : string * value) :
  List.length (print (snd kv)) + 3 <= List.length (member kv).
Proof.
  unfold member, print_string. simpl. rewrite !length_app. simpl. lia.
Qed.

Lemma member_shape (k : string) (x : value) (tail : chars) :
  member (k, x) ++ tail
  = quote :: escape_all k ++ quote :: ":"%char :: print x ++ tail.
Proof.
  unfold member, print_string. simpl. rewrite <- !app_assoc. reflexivity.
Qed.

Lemma parse_members_print (props : list (string * value)) :
  Forall (fun kv => reads_back (snd kv)) props ->
  props <> [] ->
  forall (fuel : nat) (rest : chars),
    List.length (join (map member props)) + 1 < fuel ->
    parse_members fuel (join (map member props) ++ "}"%char :: rest)
      = Some (props, rest).
Proof.
  induction 1 as [|[k x] l Hx Hl IH]; intros Hne fuel rest Hfuel; [contradiction|].
  destruct fuel as [|f]; [lia|].
  pose proof (member_length (k, x)) as Hlen. cbn [snd] in Hlen, Hx.
  cbn [parse_members]. unfold members_step.
  destruct l as [|y l'].
  - change (join (map member [(k, x)])) with (member (k, x)) in *.
    rewrite member_shape.
    cbn [skip_ws is_ws quote Ascii.eqb Bool.eqb orb andb].
    rewrite parse_chars_print.
    cbn [skip_ws is_ws Ascii.eqb Bool.eqb orb andb].
    rewrite Hx; [|lia|simpl; tauto]. reflexivity.
  - change (join (map member ((k, x) :: y :: l')))
      with (member (k, x) ++ ","%char :: join (map member (y :: l'))) in *.
    rewrite length_app in Hfuel. cbn [List.length] in Hfuel.
    rewrite <- app_assoc. rewrite member_shape.
    cbn [skip_ws is_ws quote Ascii.eqb Bool.eqb orb andb].
    rewrite parse_chars_print.
    cbn [skip_ws is_ws Ascii.eqb Bool.eqb orb andb].
    rewrite Hx; [|lia|simpl; tauto].
    cbn [List.app skip_ws is_ws Ascii.eqb Bool.eqb orb andb].
    rewrite IH; [reflexivity|discriminate|]. lia.
Qed.

Lemma set_fresh (acc : list (string * value)) (k : string) (x : value) :
  ~ In k (map fst acc) -> JS.set acc k x = acc ++ [(k, x)].
Proof.
  induction acc as [|[k' y] acc IH]; simpl; intros Hk; [reflexivity|].
  destruct (String.eqb_spec k' k) as [->|_]; [tauto|].
  rewrite IH; tauto.
Qed.

Lemma collect_from (props acc : list (string * value)) :
  NoDup (map fst (acc ++ props)) ->
  fold_left (fun a kv => JS.set a (fst kv) (snd kv)) props acc = acc ++ props.
Proof.
  revert acc. induction props as [|[k x] props IH]; intros acc Hnd; simpl.
  - now rewrite List.app_nil_r.
  - rewrite set_fresh.
    + rewrite IH; rewrite <- app_assoc; [reflexivity|assumption].
    + rewrite map_app in Hnd. simpl in Hnd.
      apply NoDup_remove_2 in Hnd. rewrite in_app_iff in Hnd. tauto.
Qed.

Lemma collect_distinct (props : list (string * value)) :
  NoDup (map fst props) -> collect props = props.
Proof. intros H. apply (collect_from props []). assumption. Qed.

Lemma storable_defined (v : value) : storable v -> v <> Undefined.
Proof. intros H. inversion H; discriminate. Qed.

(** *** Every value *)

Lemma parse_print (v : value) : storable v -> reads_back v.
Proof.
  induction v as [| |b|z|s|l IH|props IH] using value_induction;
    intros Hj fuel rest Hfuel Hrest;
    (destruct fuel as [|f]; [lia|]).
  - inversion Hj.
  - reflexivity.
  - destruct b; reflexivity.
  - destruct (print_num_head z) as (c & r & E & Hin).
    cbn [print]. pose proof (parse_number_print z rest Hrest) as Hn.
    rewrite E in *. cbn [List.app] in *.
    rewrite (parse_value_number f c _ Hin), Hn. reflexivity.
  - cbn [print]. unfold print_string.
    rewrite <- app_comm_cons, <- app_assoc, parse_value_string.
    cbn [List.app]. rewrite parse_chars_print. reflexivity.
  - inversion Hj as [| | | |l' Hl|]; subst.
    assert (Hback : Forall reads_back l).
    { rewrite Forall_forall in *. auto. }
    destruct l as [|x l]; [reflexivity|].
    cbn [print] in *. rewrite <- app_comm_cons, <- app_assoc. cbn [List.app].
    rewrite length_cons, length_app in Hfuel. cbn [List.length] in Hfuel.
    cbn [map]. rewrite join_head.
    destruct (print_head x) as (c & r & E & Hin). rewrite E. cbn [List.app].
    rewrite (parse_value_array f c _ Hin).
    change (c :: r ++ ?t) with ((c :: r) ++ t). rewrite <- E, <- join_head.
    change (print x :: map print l) with (map print (x :: l)).
    rewrite parse_elements_print; [reflexivity|assumption|discriminate|].
    cbn [map] in *. lia.
  - inversion Hj as [| | | | |props' Hnd Hl]; subst.
    assert (Hback : Forall (fun kv => reads_back (snd kv)) props).
    { rewrite Forall_forall in *. auto. }
    assert (Hdef : Forall (fun kv => snd kv <> Undefined) props).
    { rewrite Forall_forall in *. intros kv Hin. apply storable_defined. auto. }
    cbn [print] in *. rewrite (members_defined props Hdef) in *.
    destruct props as [|[k x] props]; [reflexivity|].
    rewrite <- app_comm_cons, <- app_assoc. cbn [List.app].
    rewrite length_cons, length_app in Hfuel. cbn [List.length] in Hfuel.
    cbn [map]. rewrite join_head, member_shape.
    rewrite parse_value_object.
    rewrite <- member_shape, <- join_head.
    change (member (k, x) :: map member props) with (map member ((k, x) :: props)).
    rewrite parse_members_print; [|assumption|discriminate|cbn [map] in *; lia].
    rewrite collect_distinct by assumption. reflexivity.
Qed.

(** [JSON.parse(JSON.stringify(v))] is [v] again when [v] is a JSON value. *)
Lemma parse_stringify (v : value) :
  storable v ->
  exists text, stringify v = Some text /\ parse text = Ok v.
Proof.
  intros Hj. exists (string_of_list_ascii (print v)). split.
  - destruct v; try reflexivity. inversion Hj.
  - unfold parse, parse_text.
    rewrite list_ascii_of_string_of_list_ascii.
    pose proof (parse_print v Hj (S (List.length (print v))) []) as H.
    rewrite List.app_nil_r in H. rewrite H; [reflexivity|lia|exact I].
Qed.

(** *** Fuel *)

Lemma skip_ws_length (s : chars) : List.length (skip_ws s) <= List.length s.
Proof.
  induction s as [|c s IH]; simpl; [lia|].
  destruct (is_ws c); simpl; lia.
Qed.

Lemma strip_prefix_length (p s r : chars) :
  strip_prefix p s = Some r -> List.length r <= List.length s.
Proof.
  revert s. induction p as [|a p IH]; intros s H; simpl in H.
  - injection H as <-. lia.
  - destruct s as [|b s]; [discriminate|].
    destruct (Ascii.eqb a b); [|discriminate].
    apply IH in H. simpl. lia.
Qed.

Lemma closes_length (b : ascii) (s r : chars) :
  closes b s = Some r -> List.length r < List.length s.
Proof.
  unfold closes. pose proof (skip_ws_length s) as Hs.
  destruct (skip_ws s) as [|c rest]; [discriminate|].
  destruct (Ascii.eqb c b); [|discriminate].
  intros H. injection H as <-. simpl in Hs. lia.
Qed.

Lemma parse_chars_length (s : chars) :
  forall (str : string) (r : chars),
    parse_chars s = Some (str, r) -> List.length r < List.length s.
Proof.
  induction s as [s IH] using (well_founded_induction
                                 (Wf_nat.well_founded_ltof _ (@List.length ascii))).
  unfold Wf_nat.ltof in IH.
  intros str r H. destruct s as [|c s]; [discriminate|]. simpl in H.
  destruct (Ascii.eqb c quote).
  { injection H as _ <-. simpl. lia. }
  destruct (Ascii.eqb c backslash).
  - destruct s as [|e r1]; [discriminate|].
    destruct (Ascii.eqb e "u"%char).
    + destruct r1 as [|h1 [|h2 [|h3 [|h4 r2]]]]; try discriminate.
      destruct (hex4 h1 h2 h3 h4) as [n|]; [|discriminate].
      destruct (n <? 256)%N; [|discriminate].
      destruct (parse_chars r2) as [[str' rest]|] eqn:E; [|discriminate].
      injection H as _ <-. apply IH in E; simpl in *; lia.
    + destruct (unescape e); [|discriminate].
      destruct (parse_chars r1) as [[str' rest]|] eqn:E; [|discriminate].
      injection H as _ <-. apply IH in E; simpl in *; lia.
  - destruct (N_of_ascii c <? 32)%N; [discriminate|].
    destruct (parse_chars s) as [[str' rest]|] eqn:E; [|discriminate].
    injection H as _ <-. apply IH in E; simpl in *; lia.
Qed.

Lemma read_digits_length (s : chars) :
  forall (u : uint) (r : chars),
    read_digits s = (u, r) ->
    List.length r <= List.length s /\ (u <> Nil -> List.length r < List.length s).
Proof.
  induction s as [|c s IH]; intros u r H; simpl in H.
  - injection H as <- <-. split; [lia|congruence].
  - destruct (digit_of c) as [d|].
    + destruct (read_digits s) as [u' r'] eqn:E. injection H as <- <-.
      destruct (IH _ _ eq_refl) as [Hle _]. simpl. split; intros; lia.
    + injection H as <- <-. split; [lia|congruence].
Qed.

Lemma parse_number_length (s : chars) (z : Z) (r : chars) :
  parse_number s = Some (z, r) -> List.length r < List.length s.
Proof.
  unfold parse_number. intros H.
  destruct (match s with
            | [] => (false, s)
            | c :: rest => if Ascii.eqb c "-"%char then (true, rest) else (false, s)
            end) as [neg s1] eqn:Hs.
  assert (Hs1 : List.length s1 <= List.length s).
  { destruct s as [|c rest]; [injection Hs as _ <-; lia|].
    destruct (Ascii.eqb c "-"%char); injection Hs as _ <-; simpl; lia. }
  destruct (read_digits s1) as [d r'] eqn:E.
  apply read_digits_length in E. destruct E as [_ Hlt].
  destruct d; try discriminate;
    (destruct (uint_beq _ _); [|discriminate]);
    (assert (Hr : r' = r)
       by (destruct r' as [|c r'']; [congruence|];
           destruct (_ || _); [discriminate|congruence]));
    subst r'; (assert (List.length r < List.length s1) by (apply Hlt; discriminate));
    lia.
Qed.

Lemma value_step_within (g : nat)
    (el el' : chars -> option (list value * chars))
    (mem mem' : chars -> option (list (string * value) * chars)) :
  within el el' g -> within mem mem' g ->
  within (value_step el mem) (value_step el' mem') (S g).
Proof.
  intros Hel Hmem s x r H. unfold value_step in *.
  pose proof (skip_ws_length s) as Hs.
  destruct (skip_ws s) as [|c r0]; [discriminate|]. cbn [List.length] in Hs.
  destruct (Ascii.eqb c "n"%char).
  { destruct (strip_prefix _ r0) as [r'|] eqn:E; [|discriminate].
    injection H as <- <-. apply strip_prefix_length in E. split; [lia|reflexivity]. }
  destruct (Ascii.eqb c "t"%char).
  { destruct (strip_prefix _ r0) as [r'|] eqn:E; [|discriminate].
    injection H as <- <-. apply strip_prefix_length in E. split; [lia|reflexivity]. }
  destruct (Ascii.eqb c "f"%char).
  { destruct (strip_prefix _ r0) as [r'|] eqn:E; [|discriminate].
    injection H as <- <-. apply strip_prefix_length in E. split; [lia|reflexivity]. }
  destruct (Ascii.eqb c quote).
  { destruct (parse_chars r0) as [[str r']|] eqn:E; [|discriminate].
    injection H as <- <-. apply parse_chars_length in E. split; [lia|reflexivity]. }
  destruct (Ascii.eqb c "["%char).
  { destruct (closes _ r0) as [r'|] eqn:E.
    - injection H as <- <-. apply closes_length in E. split; [lia|reflexivity].
    - destruct (el r0) as [[l r']|] eqn:E'; [|discriminate].
      injection H as <- <-. destruct (Hel _ _ _ E') as [Hlt Hre].
      split; [lia|]. intros Hb. rewrite Hre; [reflexivity|lia]. }
  destruct (Ascii.eqb c "{"%char).
  { destruct (closes _ r0) as [r'|] eqn:E.
    - injection H as <- <-. apply closes_length in E. split; [lia|reflexivity].
    - destruct (mem r0) as [[l r']|] eqn:E'; [|discriminate].
      injection H as <- <-. destruct (Hmem _ _ _ E') as [Hlt Hre].
      split; [lia|]. intros Hb. rewrite Hre; [reflexivity|lia]. }
  destruct (parse_number (c :: r0)) as [[z r']|] eqn:E; [|discriminate].
  injection H as <- <-. apply parse_number_length in E. cbn [List.length] in E.
  split; [lia|reflexivity].
Qed.

Lemma elements_step_within (g : nat)
    (val val' : chars -> option (value * chars))
    (el el' : chars -> option (list value * chars)) :
  within val val' g -> within el el' g ->
  within (elements_step val el) (elements_step val' el') (S g).
Proof.
  intros Hval Hel s x r H. unfold elements_step in *.
  destruct (val s) as [[v r1]|] eqn:Ev; [|discriminate].
  destruct (Hval _ _ _ Ev) as [Hlt Hre].
  pose proof (skip_ws_length r1) as Hs.
  destruct (skip_ws r1) as [|c r2] eqn:Es; [discriminate|]. cbn [List.length] in Hs.
  destruct (Ascii.eqb c ","%char) eqn:Ec.
  - destruct (el r2) as [[vs r']|] eqn:Ee; [|discriminate].
    injection H as <- <-. destruct (Hel _ _ _ Ee) as [Hlt' Hre'].
    split; [lia|]. intros Hb. rewrite Hre by lia. rewrite Es, Ec.
    rewrite Hre' by lia. reflexivity.
  - destruct (Ascii.eqb c "]"%char) eqn:Ec'; [|discriminate].
    injection H as <- <-. split; [lia|]. intros Hb.
    rewrite Hre by lia. rewrite Es, Ec, Ec'. reflexivity.
Qed.

Lemma members_step_within (g : nat)
    (val val' : chars -> option (value * chars))
    (mem mem' : chars -> option (list (string * value) * chars)) :
  within val val' g -> within mem mem' g ->
  within (members_step val mem) (members_step val' mem') (S g).
Proof.
  intros Hval Hmem s x r H. unfold members_step in *.
  pose proof (skip_ws_length s) as Hs.
  destruct (skip_ws s) as [|c r0]; [discriminate|]. cbn [List.length] in Hs.
  destruct (Ascii.eqb c quote); [|discriminate].
  destruct (parse_chars r0) as [[k r1]|] eqn:Ek; [|discriminate].
  apply parse_chars_length in Ek.
  pose proof (skip_ws_length r1) as Hs1.
  destruct (skip_ws r1) as [|c1 r2]; [discriminate|]. cbn [List.length] in Hs1.
  destruct (Ascii.eqb c1 ":"%char); [|discriminate].
  destruct (val r2) as [[v r3]|] eqn:Ev; [|discriminate].
  destruct (Hval _ _ _ Ev) as [Hlt Hre].
  pose proof (skip_ws_length r3) as Hs3.
  destruct (skip_ws r3) as [|c2 r4] eqn:Es; [discriminate|]. cbn [List.length] in Hs3.
  destruct (Ascii.eqb c2 ","%char) eqn:Ec.
  - destruct (mem r4) as [[ms r']|] eqn:Em; [|discriminate].
    injection H as <- <-. destruct (Hmem _ _ _ Em) as [Hlt' Hre'].
    split; [lia|]. intros Hb. rewrite Hre by lia. rewrite Es, Ec.
    rewrite Hre' by lia. reflexivity.
  - destruct (Ascii.eqb c2 "}"%char) eqn:Ec'; [|discriminate].
    injection H as <- <-. split; [lia|]. intros Hb.
    rewrite Hre by lia. rewrite Es, Ec, Ec'. reflexivity.
Qed.

Lemma fuel_within (f : nat) :
  forall g : nat,
    within (parse_value f) (parse_value g) g /\
    within (parse_elements f) (parse_elements g) g /\
    within (parse_members f) (parse_members g) g.
Proof.
  induction f as [|f IH]; intros g.
  - split; [|split]; intros s x r H; discriminate.
  - destruct g as [|g].
    + destruct (IH 0) as (Hv & He & Hm).
      split; [|split]; intros s x r H.
      * pose proof (value_step_within 0 _ _ _ _ He Hm s x r H) as [Hlt _].
        split; [assumption|lia].
      * pose proof (elements_step_within 0 _ _ _ _ Hv He s x r H) as [Hlt _].
        split; [assumption|lia].
      * pose proof (members_step_within 0 _ _ _ _ Hv Hm s x r H) as [Hlt _].
        split; [assumption|lia].
    + destruct (IH g) as (Hv & He & Hm). split; [|split].
      * apply (value_step_within g _ _ _ _ He Hm).
      * apply (elements_step_within g _ _ _ _ Hv He).
      * apply (members_step_within g _ _ _ _ Hv Hm).
Qed.

(** A text the reader accepts with some fuel, it accepts with the fuel
    [parse_text] gives it. *)
Lemma parse_text_fuel (text : string) (f : nat) (v : value) (r : chars) :
  parse_value f (list_ascii_of_string text) = Some (v, r) ->
  skip_ws r = [] ->
  parse_text text = Some v.
Proof.
  intros H Hr. unfold parse_text.
  destruct (fuel_within f (S (List.length (list_ascii_of_string text))))
    as (Hv & _ & _).
  destruct (Hv _ _ _ H) as [_ Hre]. rewrite Hre by lia. now rewrite Hr.
Qed.

(** *** Values that hold undefined *)

Lemma print_to_json (v : value) : print (to_json v) = print v.
Proof.
  induction v as [| |b|z|s|l IH|props IH] using value_induction;
    try reflexivity.
  - cbn [to_json print]. rewrite map_map. f_equal. f_equal. f_equal.
    apply map_ext_Forall. assumption.
  - cbn [to_json print]. f_equal. f_equal. f_equal.
    induction props as [|[k x] props IHp]; [reflexivity|].
    inversion IH as [|? ? Hx Hrest]; subst. cbn [snd] in Hx.
    cbn [flat_map]. rewrite flat_map_app, (IHp Hrest).
    f_equal. destruct x; try reflexivity.
    + cbn [flat_map List.app]. rewrite Hx.
      destruct (to_json (Arr elems)) eqn:T; try reflexivity. discriminate.
    + cbn [flat_map List.app]. rewrite Hx.
      destruct (to_json (Obj props0)) eqn:T; try reflexivity. discriminate.
Qed.

Lemma survivors_keys (props : list (string * value)) (k : string) :
  In k (map fst (survivors props)) -> In k (map fst props).
Proof.
  induction props as [|[k' x] props IH]; [auto|].
  unfold survivors in *. cbn [flat_map map fst]. rewrite map_app, in_app_iff.
  intros [H|H]; [|right; auto].
  destruct x; simpl in H |- *; tauto.
Qed.

Lemma survivors_distinct (props : list (string * value)) :
  NoDup (map fst props) -> NoDup (map fst (survivors props)).
Proof.
  induction props as [|[k x] props IH]; intros Hnd; [constructor|].
  inversion Hnd as [|? ? Hk Hrest]; subst.
  unfold survivors in *. cbn [flat_map]. rewrite map_app.
  assert (Hfresh : ~ In k (map fst (survivors props))).
  { intros H. apply Hk. now apply survivors_keys. }
  destruct x; simpl; auto; constructor; auto.
Qed.

Lemma to_json_storable (v : value) : well_formed v -> storable (to_json v).
Proof.
  induction v as [| |b|z|s|l IH|props IH] using value_induction;
    intros Hwf; try constructor.
  - inversion Hwf; subst. rewrite Forall_map. rewrite Forall_forall in *. auto.
  - inversion Hwf; subst. now apply survivors_distinct.
  - inversion Hwf as [| | | | | |? Hnd Hall]; subst. clear Hnd Hwf.
    induction props as [|[k x] props IHp]; [constructor|].
    inversion IH; inversion Hall; subst. cbn [flat_map].
    apply Forall_app. split; [|auto].
    cbn [snd] in *.
    destruct x; constructor; cbn [snd]; auto.
Qed.

Lemma storable_to_json (v : value) : storable v -> to_json v = v.
Proof.
  induction v as [| |b|z|s|l IH|props IH] using value_induction;
    intros Hj; try reflexivity.
  - inversion Hj.
  - inversion Hj; subst. cbn [to_json]. f_equal.
    rewrite <- (map_id l) at 2. apply map_ext_Forall.
    rewrite Forall_forall in *. auto.
  - inversion Hj as [| | | | |? Hnd Hall]; subst. cbn [to_json]. f_equal.
    clear Hnd Hj.
    induction props as [|[k x] props IHp]; [reflexivity|].
    inversion IH; inversion Hall; subst. cbn [flat_map snd] in *.
    rewrite IHp by assumption.
    assert (Hx : to_json x = x) by auto.
    rewrite Hx. destruct x; try reflexivity.
    match goal with H : storable Undefined |- _ => inversion H end.
Qed.

(** Written and read again, a value comes back as [to_json] of itself. *)
Lemma parse_stringify_normal (v : value) :
  well_formed v ->
  v <> Undefined ->
  exists text, stringify v = Some text /\ parse text = Ok (to_json v).
Proof.
  intros Hwf Hdef.
  destruct (parse_stringify (to_json v) (to_json_storable v Hwf))
    as (text & Htext & Hparse).
  exists text. split; [|assumption].
  unfold stringify in *. rewrite print_to_json in Htext.
  destruct v; try assumption. contradiction.
Qed.

End Serialisation.

(** ** The risk classifier *)

Section Classifier.

Import WebRiskDemo.

Lemma includes_spec (levels : list string) (v : value) :
  includes levels v = true <-> exists c, v = Str c /\ In c levels.
Proof.
  unfold includes. rewrite existsb_exists. split.
  - intros (l & Hin & Hl). destruct v; try discriminate.
    simpl in Hl. apply String.eqb_eq in Hl. subst. eauto.
  - intros (c & -> & Hin). exists c. split; [assumption|].
    simpl. apply String.eqb_refl.
Qed.

Lemma level_in_object (levels : list string) (props : list (string * value)) :
  level_in levels (Obj props) = Ok (includes levels (prop "confidenceLevel" props)).
Proof. reflexivity. Qed.

Lemma level_in_true (levels : list string) (e : value) :
  level_in levels e = Ok true <-> has_level levels e.
Proof.
  unfold level_in, has_level. split.
  - destruct (get e "confidenceLevel") as [c|err] eqn:E; simpl; [|discriminate].
    intros H. injection H as H. apply includes_spec in H.
    destruct H as (c' & -> & Hin). eauto.
  - intros (c & -> & Hin). simpl. f_equal. apply includes_spec. eauto.
Qed.

Lemma level_in_total (levels : list string) (e : value) :
  is_object e -> exists b, level_in levels e = Ok b.
Proof. intros [props ->]. rewrite level_in_object. eauto. Qed.

Lemma some_level_in (levels : list string) (scores : list value) :
  Forall is_object scores ->
  exists b, some (level_in levels) scores = Ok b /\
            (b = true <-> Exists (has_level levels) scores).
Proof.
  induction 1 as [|e rest He _ IH]; simpl.
  - exists false. split; [reflexivity|].
    split; [discriminate|]. intros H. inversion H.
  - destruct (level_in_total levels e He) as [b Hb]. rewrite Hb. simpl.
    destruct b.
    + exists true. split; [reflexivity|]. split; [|reflexivity].
      intros _. apply Exists_cons_hd. now apply level_in_true.
    + destruct IH as (b & Hsome & Hiff). exists b. split; [assumption|].
      rewrite Hiff. split.
      * intros H. now apply Exists_cons_tl.
      * intros H. inversion H as [? ? Hhd|]; subst; [|assumption].
        apply level_in_true in Hhd. congruence.
Qed.

Lemma levels_disjoint (e : value) :
  has_level SAFE_LOW e -> has_level MEDIUM_UP e -> False.
Proof.
  intros (c & Hc & Hin) (c' & Hc' & Hin').
  rewrite Hc in Hc'. injection Hc' as <-.
  simpl in Hin, Hin'. intuition (subst; discriminate).
Qed.

Lemma safe_low_is_object (e : value) : has_level SAFE_LOW e -> is_object e.
Proof.
  intros (c & Hc & Hin). destruct e; simpl in Hc; try discriminate.
  eexists; reflexivity.
Qed.

(** C7. [hasHighRisk] on a sequence of score entries is true exactly when
    some entry has confidence level MEDIUM, HIGH, HIGHER or EXTREMELY_HIGH;
    it is false for the empty sequence and for a sequence whose entries are
    all SAFE or LOW. *)
Theorem hasHighRisk_iff_some_medium_up :
  (forall scores : list value,
      Forall is_object scores ->
      exists b, hasHighRisk (Arr scores) = Ok (Bool b) /\
                (b = true <-> Exists (has_level MEDIUM_UP) scores)) /\
  hasHighRisk (Arr []) = Ok (Bool false) /\
  (forall scores : list value,
      Forall (has_level SAFE_LOW) scores ->
      hasHighRisk (Arr scores) = Ok (Bool false)).
Proof.
  split; [|split].
  - intros scores Hobj. simpl.
    destruct (some_level_in MEDIUM_UP scores Hobj) as (b & Hsome & Hiff).
    exists b. rewrite Hsome. split; [reflexivity|assumption].
  - reflexivity.
  - intros scores Hall. simpl.
    assert (Hobj : Forall is_object scores).
    { eapply Forall_impl; [|exact Hall]. apply safe_low_is_object. }
    destruct (some_level_in MEDIUM_UP scores Hobj) as (b & Hsome & Hiff).
    rewrite Hsome. simpl. destruct b; [|reflexivity].
    exfalso. destruct Hiff as [Hex _]. specialize (Hex eq_refl).
    apply Exists_exists in Hex. destruct Hex as (e & Hin & Hup).
    rewrite Forall_forall in Hall. eapply levels_disjoint; eauto.
Qed.

Lemma hasHighRisk_iff_some_medium_up_witness :
  exists b, hasHighRisk (Arr sample_scores) = Ok (Bool b) /\
            (b = true <-> Exists (has_level MEDIUM_UP) sample_scores).
Proof.
  apply (proj1 hasHighRisk_iff_some_medium_up sample_scores).
  repeat constructor; eexists; reflexivity.
Defined.

Lemma level_in_false (levels : list string) (e : value) :
  is_object e -> ~ has_level levels e -> level_in levels e = Ok false.
Proof.
  intros Hobj Hno. destruct (level_in_total levels e Hobj) as [[] Hb].
  - apply level_in_true in Hb. contradiction.
  - assumption.
Qed.

Lemma find_first (levels : list string) (before after : list value) (e : value) :
  Forall is_object before ->
  Forall (fun x => ~ has_level levels x) before ->
  has_level levels e ->
  find (level_in levels) (before ++ e :: after) = Ok e.
Proof.
  intros Hobj Hno He. induction before as [|x before IH]; simpl.
  - apply level_in_true in He. rewrite He. reflexivity.
  - inversion Hobj; inversion Hno; subst.
    rewrite level_in_false by assumption. simpl. now apply IH.
Qed.

Lemma find_none (levels : list string) (scores : list value) :
  Forall is_object scores ->
  Forall (fun x => ~ has_level levels x) scores ->
  find (level_in levels) scores = Ok Undefined.
Proof.
  intros Hobj Hno. induction scores as [|x scores IH]; simpl.
  - reflexivity.
  - inversion Hobj; inversion Hno; subst.
    rewrite level_in_false by assumption. simpl. now apply IH.
Qed.

(** C8. The abuse type put in the form is the threat type of the first
    entry, in the order of the sequence, whose confidence level is MEDIUM,
    HIGH, HIGHER or EXTREMELY_HIGH, and the empty string when no entry
    qualifies. *)
Theorem recommendAbuseType_first_medium_up :
  (forall (before after : list value) (e : value),
      Forall is_object before ->
      Forall (fun x => ~ has_level MEDIUM_UP x) before ->
      is_score_entry e ->
      has_level MEDIUM_UP e ->
      recommendAbuseType (Arr (before ++ e :: after)) = get e "threatType") /\
  (forall scores : list value,
      Forall is_object scores ->
      Forall (fun x => ~ has_level MEDIUM_UP x) scores ->
      recommendAbuseType (Arr scores) = Ok (Str EmptyString)).
Proof.
  split.
  - intros before after e Hobj Hno (props & t & -> & Ht & Hne) He.
    unfold recommendAbuseType.
    rewrite (find_first MEDIUM_UP before after _ Hobj Hno He). simpl.
    rewrite Ht. simpl.
    destruct (String.eqb_spec t EmptyString) as [->|_]; [contradiction|reflexivity].
  - intros scores Hobj Hno. unfold recommendAbuseType.
    rewrite (find_none MEDIUM_UP scores Hobj Hno). reflexivity.
Qed.

Lemma recommendAbuseType_first_medium_up_witness :
  recommendAbuseType (Arr sample_scores) = Ok (Str "SOCIAL_ENGINEERING").
Proof.
  apply (proj1 recommendAbuseType_first_medium_up
           [entry "MALWARE" "SAFE"] [entry "UNWANTED_SOFTWARE" "MEDIUM"]
           (entry "SOCIAL_ENGINEERING" "HIGH")).
  - repeat constructor. eexists; reflexivity.
  - repeat constructor. intros (c & Hc & Hin). injection Hc as <-.
    simpl in Hin. intuition discriminate.
  - eexists _, _. split; [reflexivity|]. split; [reflexivity|discriminate].
  - exists "HIGH". split; [reflexivity|]. simpl. tauto.
Defined.

End Classifier.

(** ** The scan session *)

Section Scan.

Import WebRiskDemo.

(** Whatever the outcome, one scan puts one result in front of the list the
    handler started from. *)
Lemma handleScan_prepends now iso o s w :
  exists r, results (fst (handleScan now iso o s w)) = r :: results s.
Proof. unfold handleScan. simpl. eauto. Qed.

(** The status [handleScan] stores: safe only when every entry is exactly
    SAFE, whatever the resolved scores are. *)
Lemma every_exactly_safe (scores : list value) :
  Forall is_object scores ->
  exists b,
    every (fun score => c <- get score "confidenceLevel" ;; Ok (is_str c "SAFE"))
      scores = Ok b /\
    (b = true <-> Forall (has_level ["SAFE"]) scores).
Proof.
  induction 1 as [|e rest [props ->] _ IH]; simpl.
  - exists true. split; [reflexivity|]. split; [constructor|reflexivity].
  - destruct (is_str (prop "confidenceLevel" props) "SAFE") eqn:E.
    + destruct IH as (b & Hb & Hiff). exists b. split; [assumption|].
      rewrite Hiff. split.
      * intros H. constructor; [|assumption].
        destruct (prop "confidenceLevel" props) eqn:P; try discriminate.
        simpl in E. apply String.eqb_eq in E. subst.
        exists "SAFE". simpl. rewrite P. split; [reflexivity|tauto].
      * intros H. now inversion H.
    + exists false. split; [reflexivity|]. split; [discriminate|].
      intros H. inversion H as [|? ? (c & Hc & Hin)]; subst.
      simpl in Hc. injection Hc as Hc. rewrite Hc in E.
      simpl in Hin. destruct Hin as [<-|[]]. discriminate.
Qed.

Lemma handleScan_status (now : Z) (iso : string) (r : response) (data : value)
    (scores : list value) (s : State) (w : world) :
  json r = Ok data ->
  get data "scores" = Ok (Arr scores) ->
  Forall is_object scores ->
  exists (res : value) (b : bool),
    results (fst (handleScan now iso (Responded r) s w)) = res :: results s /\
    get res "status" = Ok (Str (if b then "safe" else "threat")) /\
    (b = true <-> Forall (has_level ["SAFE"]) scores).
Proof.
  intros Hjson Hscores Hobj.
  destruct (every_exactly_safe scores Hobj) as (b & Hb & Hiff).
  unfold handleScan, scanned. simpl. rewrite Hjson. simpl.
  rewrite Hscores. simpl. rewrite Hb. simpl.
  assert (Hd : exists x, get data "resolvedUriScore" = Ok x).
  { destruct data; simpl in *; try discriminate; eauto;
      destruct (String.eqb _ _); eauto. }
  destruct Hd as [x Hx]. rewrite Hx. simpl.
  eexists _, b. split; [reflexivity|]. split; [|assumption].
  simpl. reflexivity.
Qed.

(** C5. When the request is rejected, the body does not parse or the parsed
    body has no [scores], the handler puts in front of the results it started
    from one result with status "error" whose details are the failure's
    message, or "Failed to scan URL" when that message is empty; the earlier
    results follow it unchanged. *)
Theorem handleScan_error_is_prepended :
  forall (now : Z) (iso : string) (o : fetch_outcome) (s : State) (w : world)
         (e : exn),
    scan_fault o e ->
    results (fst (handleScan now iso o s w)) =
      Obj [("id", Num now); ("url", Str (url s));
           ("status", Str "error");
           ("timestamp", Str iso);
           ("details", Str (if String.eqb (message e) EmptyString
                            then "Failed to scan URL" else message e))]
      :: results s.
Proof.
  intros now iso o s w e Hfault.
  assert (Hthrow : scanned now iso (url s) o = Throw e).
  { destruct Hfault as [e|r e Hjson|r data Hjson Hscores];
      unfold scanned; simpl.
    - reflexivity.
    - rewrite Hjson. reflexivity.
    - rewrite Hjson. simpl. rewrite Hscores. reflexivity. }
  unfold handleScan. rewrite Hthrow. simpl. unfold scan_failure. simpl.
  destruct (String.eqb (message e) EmptyString); reflexivity.
Qed.

Lemma handleScan_error_is_prepended_witness :
  results (fst (handleScan 1700000000000 "2023-11-14T22:13:20.000Z"
                  (Rejected (TypeError "Failed to fetch"))
                  sample_state sample_world)) =
    Obj [("id", Num 1700000000000); ("url", Str "http://evil.example");
         ("status", Str "error");
         ("timestamp", Str "2023-11-14T22:13:20.000Z");
         ("details", Str "Failed to fetch")]
    :: results sample_state.
Proof.
  apply (handleScan_error_is_prepended 1700000000000 "2023-11-14T22:13:20.000Z"
           (Rejected (TypeError "Failed to fetch")) sample_state sample_world
           (TypeError "Failed to fetch")).
  constructor.
Defined.

(** The icon of a result card follows the verdict of the specification. *)
Lemma every_level_in (levels : list string) (scores : list value) :
  Forall is_object scores ->
  exists b, every (level_in levels) scores = Ok b /\
            (b = true <-> Forall (has_level levels) scores).
Proof.
  induction 1 as [|e rest He _ IH]; simpl.
  - exists true. split; [reflexivity|]. split; [constructor|reflexivity].
  - destruct (level_in_total levels e He) as [b Hb]. rewrite Hb. simpl.
    destruct b.
    + destruct IH as (b & Hevery & Hiff). exists b. split; [assumption|].
      rewrite Hiff. split.
      * intros H. constructor; [now apply level_in_true|assumption].
      * intros H. now inversion H.
    + exists false. split; [reflexivity|]. split; [discriminate|].
      intros H. inversion H as [|? ? Hhd]; subst.
      apply level_in_true in Hhd. congruence.
Qed.

Lemma safeIcon_is_specified_verdict (props : list (string * value))
    (scores : list value) (resolved : option (list value)) :
  prop "scores" props = Arr scores ->
  Forall is_object scores ->
  match resolved with
  | None => prop "resolvedUriScore" props = Undefined
  | Some rscores =>
      exists rprops,
        prop "resolvedUriScore" props = Obj rprops /\
        prop "scores" rprops = Arr rscores /\
        Forall is_object rscores
  end ->
  exists b, safeIcon (Obj props) = Ok b /\ (b = true <-> specified_safe scores resolved).
Proof.
  intros Hs Hobj Hres. unfold safeIcon, specified_safe. simpl. rewrite Hs. simpl.
  destruct (every_level_in SAFE_LOW scores Hobj) as (b & Hb & Hiff).
  rewrite Hb. simpl. destruct b.
  - destruct resolved as [rscores|].
    + destruct Hres as (rprops & Hr & Hrs & Hrobj). rewrite Hr. simpl.
      rewrite Hrs. simpl.
      destruct (every_level_in SAFE_LOW rscores Hrobj) as (b' & Hb' & Hiff').
      exists b'. split; [assumption|]. rewrite Hiff'. tauto.
    + rewrite Hres. simpl. exists true. split; [reflexivity|]. tauto.
  - exists false. split; [reflexivity|]. split; [discriminate|].
    intros [H _]. apply Hiff in H. discriminate.
Qed.

(** C1. [handleScan] does not store the status the specification asks for.
    A response whose only entry is LOW gets status "threat" although every
    entry is SAFE or LOW, and a response whose entries are SAFE but whose
    resolved scores hold a HIGH entry gets status "safe"; on both results
    the card's icon gives the specified verdict. *)
Theorem handleScan_status_is_not_the_specified_verdict :
  forall (now : Z) (iso : string) (s : State) (w : world),
    (specified_safe low_only_scores None /\
     exists r,
       results (fst (handleScan now iso (served low_only_response) s w))
         = r :: results s /\
       get r "status" = Ok (Str "threat") /\
       safeIcon r = Ok true) /\
    (~ specified_safe all_safe_scores (Some risky_scores) /\
     exists r,
       results (fst (handleScan now iso (served resolved_risky_response) s w))
         = r :: results s /\
       get r "status" = Ok (Str "safe") /\
       safeIcon r = Ok false).
Proof.
  intros now iso s w. split; split.
  - split; [|exact I]. repeat constructor.
    exists "LOW". split; [reflexivity|]. simpl. tauto.
  - eexists. split; [reflexivity|]. split; reflexivity.
  - intros [_ H]. inversion H as [|? ? (c & Hc & Hin)]; subst.
    injection Hc as <-. simpl in Hin. intuition discriminate.
  - eexists. split; [reflexivity|]. split; reflexivity.
Qed.

End Scan.

(** ** The submission lifecycle *)

Section Lifecycle.

Lemma item_without (key : string) (l : list (string * string)) :
  item key (without key l) = None.
Proof.
  induction l as [|[k v] l IH]; simpl; [reflexivity|].
  destruct (String.eqb k key) eqn:E; [assumption|].
  simpl. rewrite E. assumption.
Qed.

(** C9. Declined, [clearSubmissionHistory] changes neither the list nor the
    store; confirmed, it empties the list and removes the stored item. *)
Theorem clearSubmissionHistory_clears_on_confirmation :
  forall (s : WebRiskDemo.State) (w : world),
    WebRiskDemo.clearSubmissionHistory false s w = (s, w) /\
    WebRiskDemo.submissions (fst (WebRiskDemo.clearSubmissionHistory true s w)) = [] /\
    getItem WebRiskDemo.STORAGE_KEY
      (store (snd (WebRiskDemo.clearSubmissionHistory true s w))) = None.
Proof.
  intros s w. split; [reflexivity|]. split; [reflexivity|].
  unfold WebRiskDemo.clearSubmissionHistory, getItem. simpl.
  apply item_without.
Qed.

Lemma map_from_nth {A} (f : nat -> value -> result A) (l : list value) :
  forall (i : nat) (l' : list A),
    map_from i f l = Ok l' ->
    List.length l' = List.length l /\
    forall (j : nat) (x : value),
      nth_error l j = Some x ->
      exists y, f (i + j) x = Ok y /\ nth_error l' j = Some y.
Proof.
  induction l as [|x l IH]; intros i l' H; simpl in H.
  - injection H as <-. split; [reflexivity|]. intros [|j] y Hy; discriminate.
  - destruct (f i x) as [y|e] eqn:Hx; simpl in H; [|discriminate].
    destruct (map_from (S i) f l) as [ys|e] eqn:Hl; simpl in H; [|discriminate].
    injection H as <-. destruct (IH _ _ Hl) as [Hlen Hnth].
    split; [simpl; congruence|].
    intros [|j] z Hz; simpl in Hz.
    + injection Hz as <-. exists y. rewrite Nat.add_0_r. split; [assumption|reflexivity].
    + destruct (Hnth j z Hz) as (y' & Hy' & Hn). exists y'.
      rewrite Nat.add_succ_r. split; assumption.
Qed.

Lemma update_other (target : string) (data : value) (iso : string)
    (sub y : value) :
  get sub "operation" <> Ok (Str target) ->
  WebRiskDemo.update target data iso sub = Ok y ->
  y = sub.
Proof.
  unfold WebRiskDemo.update. intros Hne H.
  destruct (get sub "operation") as [op|e]; simpl in H; [|discriminate].
  destruct (is_str op target) eqn:E.
  - destruct op; try discriminate. simpl in E.
    apply String.eqb_eq in E. subst. contradiction.
  - congruence.
Qed.

(** C10. Whatever [refreshSubmissionStatus(operation)] meets, the list keeps
    its length and every record whose [operation] is not the one asked for
    stays what it was, at its place. *)
Theorem refreshSubmissionStatus_leaves_other_records :
  forall (operation : value) (clock : nat -> string) (o : fetch_outcome)
         (s : WebRiskDemo.State) (w : world),
    let s' := fst (WebRiskDemo.refreshSubmissionStatus operation clock o s w) in
    List.length (WebRiskDemo.submissions s')
      = List.length (WebRiskDemo.submissions s) /\
    forall (i : nat) (sub : value),
      nth_error (WebRiskDemo.submissions s) i = Some sub ->
      get sub "operation" <> Ok operation ->
      nth_error (WebRiskDemo.submissions s') i = Some sub.
Proof.
  intros operation clock o s w. unfold WebRiskDemo.refreshSubmissionStatus.
  destruct operation as [| | | |target| |]; simpl; try (split; [reflexivity|auto]).
  destruct (WebRiskDemo.polled target clock o (WebRiskDemo.submissions s))
    as [updated|e] eqn:Hp; simpl; [|split; [reflexivity|auto]].
  unfold WebRiskDemo.polled in Hp.
  destruct (awaited o) as [r|e]; simpl in Hp; [|discriminate].
  destruct (negb (ok r)); [discriminate|].
  destruct (json r) as [data|e]; simpl in Hp; [|discriminate].
  apply map_from_nth in Hp. destruct Hp as [Hlen Hnth].
  split; [assumption|].
  intros i sub Hi Hne. destruct (Hnth i sub Hi) as (y & Hy & Hn).
  apply update_other in Hy; [|assumption]. congruence.
Qed.

Lemma refreshSubmissionStatus_leaves_other_records_witness :
  nth_error
    (WebRiskDemo.submissions
       (fst (WebRiskDemo.refreshSubmissionStatus (Str "operations/2")
               (fun _ => "2023-11-15T08:00:00.000Z")
               (served (Obj [("status", Str "CLOSED")]))
               (history [record 1 "operations/1" "PENDING";
                         record 2 "operations/2" "PENDING"])
               sample_world))) 0
  = Some (record 1 "operations/1" "PENDING").
Proof.
  apply (proj2 (refreshSubmissionStatus_leaves_other_records (Str "operations/2")
                  (fun _ => "2023-11-15T08:00:00.000Z")
                  (served (Obj [("status", Str "CLOSED")]))
                  (history [record 1 "operations/1" "PENDING";
                            record 2 "operations/2" "PENDING"])
                  sample_world) 0 (record 1 "operations/1" "PENDING")).
  - reflexivity.
  - simpl. discriminate.
Defined.

Lemma network_calls_app (l1 l2 : list effect) :
  network_calls (l1 ++ l2) = network_calls l1 ++ network_calls l2.
Proof. apply filter_app. Qed.

Lemma save_log (l : list value) (w : world) :
  exists text,
    log (WebRiskDemo.saveSubmissionsToStorage l w)
      = log w ++ [SetItem WebRiskDemo.STORAGE_KEY text].
Proof.
  unfold WebRiskDemo.saveSubmissionsToStorage.
  eexists. destruct (setItem _ _ _); reflexivity.
Qed.

(** [WebRiskDemo.refreshSubmissionStatus] sends its request for every
    operation that is a string, whatever the records hold. *)
Lemma refreshSubmissionStatus_always_polls (target : string)
    (clock : nat -> string) (o : fetch_outcome)
    (s : WebRiskDemo.State) (w : world) :
  network_calls
    (log (snd (WebRiskDemo.refreshSubmissionStatus (Str target) clock o s w)))
  = network_calls (log w)
    ++ [Fetch (WebRiskDemo.poll_request (pop (split target)))].
Proof.
  unfold WebRiskDemo.refreshSubmissionStatus.
  destruct (WebRiskDemo.polled target clock o (WebRiskDemo.submissions s))
    as [updated|e]; cbn [snd].
  - destruct (save_log updated
                (emit (Fetch (WebRiskDemo.poll_request (pop (split target)))) w))
      as [text Htext].
    rewrite Htext. cbn [emit log]. rewrite !network_calls_app.
    cbn. now rewrite List.app_nil_r.
  - cbn [emit log]. now rewrite network_calls_app.
Qed.

(** In [SubmissionTab] the callback lets a record that is not pending
    through without a request. *)
Lemma refresh_one_skips_settled (submission st : value) (o : fetch_outcome) :
  get submission "status" = Ok st ->
  is_str st "PENDING" = false ->
  SubmissionTab.refresh_one submission o = (Ok submission, []).
Proof.
  intros Hst Hne. unfold SubmissionTab.refresh_one. rewrite Hst, Hne. reflexivity.
Qed.

(** C2. [WebRiskDemo.refreshSubmissionStatus] has no such test: asked for
    the operation of a record that has SUCCEEDED, it sends the status
    request and rewrites the record (here the answer is SUCCEEDED again, and
    the record gets a new [lastUpdated] and a [details] property). *)
Theorem refreshSubmissionStatus_polls_a_settled_record :
  let s := history [record 1 "operations/123" "SUCCEEDED"] in
  let out := WebRiskDemo.refreshSubmissionStatus (Str "operations/123")
               (fun _ => "2023-11-15T08:00:00.000Z")
               (served (Obj [("status", Str "SUCCEEDED")]))
               s sample_world in
  network_calls (log (snd out)) = [Fetch (WebRiskDemo.poll_request "123")] /\
  WebRiskDemo.submissions (fst out) =
    [Obj [("id", Num 1); ("url", Str "http://evil.example");
          ("operation", Str "operations/123");
          ("timestamp", Str "2023-11-14T22:13:20Z");
          ("lastUpdated", Str "2023-11-15T08:00:00.000Z");
          ("evidence", Str "imitates a bank login page");
          ("abuseType", Str "SOCIAL_ENGINEERING");
          ("platform", Str "ANDROID");
          ("status", Str "SUCCEEDED");
          ("details", Undefined)]] /\
  WebRiskDemo.submissions (fst out) <> WebRiskDemo.submissions s.
Proof.
  split; [reflexivity|]. split; [reflexivity|]. discriminate.
Qed.

(** C3, as the counterexample: with the evidence empty, [handleSubmit]
    still sends the form; and the form that [handleQuickSubmit] fills from a
    result card, whose abuse type is not one of [ABUSE_TYPES], is sent as
    well once evidence is typed in. *)
Lemma handleSubmit_sends_invalid_forms :
  (invalid_form empty_evidence_form /\
   network_calls
     (log (snd (WebRiskDemo.handleSubmit 1700000000000 "2023-11-14T22:13:20.000Z"
                  (served (Obj [("operation", Str "operations/9");
                                ("timestamp", Str "2023-11-14T22:13:20Z")]))
                  (filling empty_evidence_form) sample_world)))
     = [Fetch (WebRiskDemo.submit_request empty_evidence_form)]) /\
  (option_map
     (fun s => JS.set (WebRiskDemo.submissionForm s) "evidence"
                 (Str "imitates a bank login page"))
     (match WebRiskDemo.handleQuickSubmit extended_coverage_result
              (filling WebRiskDemo.emptyForm) with
      | Ok s => Some s
      | Throw _ => None
      end) = Some quick_form /\
   invalid_form quick_form /\
   network_calls
     (log (snd (WebRiskDemo.handleSubmit 1700000000000 "2023-11-14T22:13:20.000Z"
                  (served (Obj [("operation", Str "operations/9");
                                ("timestamp", Str "2023-11-14T22:13:20Z")]))
                  (filling quick_form) sample_world)))
     = [Fetch (WebRiskDemo.submit_request quick_form)]).
Proof.
  split; [split; [right; left; reflexivity|reflexivity]|].
  split; [reflexivity|]. split; [|reflexivity].
  right; right; left. intros a Ha. simpl in Ha.
  intuition (subst; discriminate).
Qed.

(** C3, amended. [handleSubmit] checks nothing: whatever the form holds and
    however the call ends, the first thing it does is to send the form to
    the submission service, and it sends nothing else. *)
Theorem handleSubmit_always_sends_the_form :
  forall (now : Z) (iso : string) (o : fetch_outcome)
         (s : WebRiskDemo.State) (w : world),
  exists tail,
    log (snd (WebRiskDemo.handleSubmit now iso o s w))
      = log w ++ Fetch (WebRiskDemo.submit_request (WebRiskDemo.submissionForm s))
                 :: tail /\
    network_calls tail = [].
Proof.
  intros now iso o s w. unfold WebRiskDemo.handleSubmit.
  destruct (WebRiskDemo.submitted now iso (WebRiskDemo.submissionForm s) o)
    as [[newSubmission|]|e]; simpl.
  - destruct (save_log (newSubmission :: WebRiskDemo.submissions s)
                (emit (Fetch (WebRiskDemo.submit_request
                                (WebRiskDemo.submissionForm s))) w))
      as [text Htext].
    rewrite Htext. simpl. rewrite <- app_assoc. simpl.
    eexists. split; reflexivity.
  - exists []. split; reflexivity.
  - exists []. split; reflexivity.
Qed.

Lemma all_refresh_one (net : nat -> fetch_outcome) (subs : list value) :
  Forall (fun sub => exists st, get sub "status" = Ok st) subs ->
  forall i : nat,
  exists l,
    all (map fst (mapi i (fun i s => SubmissionTab.refresh_one s (net i)) subs))
      = Ok l /\
    List.length l = List.length subs /\
    forall (j : nat) (sub : value),
      nth_error subs j = Some sub ->
      exists y, fst (SubmissionTab.refresh_one sub (net (i + j))) = Ok y /\
                nth_error l j = Some y.
Proof.
  induction 1 as [|sub subs [st Hst] _ IH]; intros i; simpl.
  - exists []. split; [reflexivity|]. split; [reflexivity|].
    intros [|j] y Hy; discriminate.
  - destruct (IH (S i)) as (l & Hall & Hlen & Hnth). rewrite Hall.
    assert (Hy : exists y, fst (SubmissionTab.refresh_one sub (net i)) = Ok y).
    { unfold SubmissionTab.refresh_one. rewrite Hst.
      destruct (is_str st "PENDING"); simpl; eauto. }
    destruct Hy as [y Hy]. rewrite Hy. simpl.
    exists (y :: l). split; [reflexivity|]. split; [simpl; congruence|].
    intros [|j] z Hz; simpl in Hz.
    + injection Hz as <-. exists y. rewrite Nat.add_0_r. split; [assumption|reflexivity].
    + destruct (Hnth j z Hz) as (y' & Hy' & Hn). exists y'.
      rewrite Nat.add_succ_r. split; assumption.
Qed.

Lemma refresh_one_writes_nothing (net : nat -> fetch_outcome) (subs : list value) :
  forall i : nat,
    storage_writes
      (List.concat (map snd (mapi i (fun i s => SubmissionTab.refresh_one s (net i))
                               subs))) = [].
Proof.
  induction subs as [|sub subs IH]; intros i; simpl; [reflexivity|].
  unfold storage_writes in *. rewrite filter_app, IH, List.app_nil_r.
  unfold SubmissionTab.refresh_one.
  destruct (get sub "status") as [st|e]; [|reflexivity].
  destruct (is_str st "PENDING"); reflexivity.
Qed.

(** C4, as the counterexample: of two pending records the first poll is
    rejected and the second answers SUCCEEDED; both records come back, the
    second with its new status, and nothing is written to the store. *)
Lemma refreshSubmissionStatus_writes_nothing :
  let out := SubmissionTab.refreshSubmissionStatus first_fails two_pending
               sample_world in
  fst out = [tab_record "operations/1" "PENDING";
             tab_record "operations/2" "SUCCEEDED"] /\
  List.length (storage_writes (log (snd out))) <> 1.
Proof.
  split; [reflexivity|]. simpl. discriminate.
Qed.

(** C4, amended. When every record is pending, the poll of the record at
    [k] is rejected and every other poll answers with a status, the refresh
    resolves with a list of the same length in which the record at [k] is
    unchanged and every other record carries the status of its answer; the
    list is replaced in memory only: the store is not touched and no write
    to it is made. *)
Theorem refreshSubmissionStatus_isolates_a_failure :
  forall (net : nat -> fetch_outcome) (subs : list value) (w : world)
         (k : nat) (e : exn) (answer : nat -> value),
    Forall (fun sub => get sub "status" = Ok (Str "PENDING")) subs ->
    net k = Rejected e ->
    (forall i, i <> k ->
       exists r data,
         net i = Responded r /\ json r = Ok data /\
         get data "status" = Ok (answer i)) ->
    let out := SubmissionTab.refreshSubmissionStatus net subs w in
    List.length (fst out) = List.length subs /\
    nth_error (fst out) k = nth_error subs k /\
    (forall (i : nat) (sub : value),
        i <> k ->
        nth_error subs i = Some sub ->
        nth_error (fst out) i
          = Some (Obj (JS.set (spread sub) "status" (answer i)))) /\
    store (snd out) = store w /\
    storage_writes (log (snd out)) = storage_writes (log w).
Proof.
  intros net subs w k e answer Hpending Hk Hothers out.
  assert (Hread : Forall (fun sub => exists st, get sub "status" = Ok st) subs).
  { eapply Forall_impl; [|exact Hpending]. simpl. eauto. }
  destruct (all_refresh_one net subs Hread 0) as (l & Hall & Hlen & Hnth).
  assert (Hout : out = (l, {| store := store w;
                              log := log w ++ List.concat
                                (map snd (mapi 0 (fun i s =>
                                   SubmissionTab.refresh_one s (net i)) subs)) |})).
  { unfold out, SubmissionTab.refreshSubmissionStatus. rewrite Hall. reflexivity. }
  rewrite Hout. simpl.
  rewrite Forall_forall in Hpending.
  split; [assumption|]. split; [|split; [|split]].
  - destruct (nth_error subs k) as [sub|] eqn:Hs.
    + destruct (Hnth k sub Hs) as (y & Hy & Hn). rewrite Hn. f_equal.
      simpl in Hy. unfold SubmissionTab.refresh_one in Hy.
      rewrite (Hpending sub (nth_error_In _ _ Hs)) in Hy. simpl in Hy.
      unfold SubmissionTab.refreshed in Hy. rewrite Hk in Hy. simpl in Hy.
      congruence.
    + apply nth_error_None. rewrite Hlen. now apply nth_error_None.
  - intros i sub Hi Hs. destruct (Hnth i sub Hs) as (y & Hy & Hn).
    rewrite Hn. f_equal. simpl in Hy. unfold SubmissionTab.refresh_one in Hy.
    rewrite (Hpending sub (nth_error_In _ _ Hs)) in Hy. simpl in Hy.
    destruct (Hothers i Hi) as (r & data & Hr & Hjson & Hstatus).
    unfold SubmissionTab.refreshed in Hy. rewrite Hr in Hy. simpl in Hy.
    rewrite Hjson in Hy. simpl in Hy. rewrite Hstatus in Hy. simpl in Hy.
    congruence.
  - reflexivity.
  - unfold storage_writes in *. rewrite filter_app.
    pose proof (refresh_one_writes_nothing net subs 0) as Hw.
    unfold storage_writes in Hw. rewrite Hw. apply List.app_nil_r.
Qed.

Lemma refreshSubmissionStatus_isolates_a_failure_witness :
  nth_error (fst (SubmissionTab.refreshSubmissionStatus first_fails two_pending
                    sample_world)) 1
  = Some (tab_record "operations/2" "SUCCEEDED").
Proof.
  apply (proj1 (proj2 (proj2
           (refreshSubmissionStatus_isolates_a_failure first_fails two_pending
              sample_world 0 (TypeError "Failed to fetch")
              (fun _ => Str "SUCCEEDED")
              ltac:(repeat constructor) eq_refl
              ltac:(intros [|i] Hi; [contradiction|];
                    eexists _, _; repeat split)))) 1
           (tab_record "operations/2" "PENDING")).
  - discriminate.
  - reflexivity.
Defined.

End Lifecycle.

(** ** The persisted history *)

Section Persistence.

Import WebRiskDemo.

Lemma getItem_setItem (key text : string) (st st' : storage) :
  setItem key text st = Ok st' -> getItem key st' = Some text.
Proof.
  unfold setItem, getItem. destruct (fits key text st); [|discriminate].
  intros H. injection H as <-. simpl. now rewrite String.eqb_refl.
Qed.

Lemma stringify_array (l : list value) :
  exists c r, JSON.stringify (Arr l) = Some (String c r).
Proof. simpl. eauto. Qed.

(** What [loadSubmissionsFromStorage] finds after
    [saveSubmissionsToStorage] is what [JSON.parse] makes of the text, when
    the store had room for it. *)
Lemma load_after_save (subs : list value) (w : world) (text : string) (v : value) :
  JSON.stringify (Arr subs) = Some text ->
  fits STORAGE_KEY text (store w) = true ->
  JSON.parse text = Ok v ->
  loadSubmissionsFromStorage (store (saveSubmissionsToStorage subs w)) = v.
Proof.
  intros Htext Hfits Hparse.
  unfold saveSubmissionsToStorage. rewrite Htext.
  cbn [emit store]. unfold setItem. rewrite Hfits. cbn [store].
  unfold loadSubmissionsFromStorage, getItem. cbn [items item].
  rewrite String.eqb_refl.
  destruct (stringify_array subs) as (c & r & Hs).
  rewrite Htext in Hs. injection Hs as ->.
  cbn [truthy String.eqb negb]. rewrite Hparse. reflexivity.
Qed.

(** For any list the components can hold, the list read back is the list
    written with its undefined properties dropped. *)
Lemma load_after_save_normal (subs : list value) (w : world) :
  Forall well_formed subs ->
  (forall text, JSON.stringify (Arr subs) = Some text ->
                fits STORAGE_KEY text (store w) = true) ->
  loadSubmissionsFromStorage (store (saveSubmissionsToStorage subs w))
    = Arr (map to_json subs).
Proof.
  intros Hwf Hfits.
  destruct (parse_stringify_normal (Arr subs)) as (text & Htext & Hparse);
    [constructor; assumption|discriminate|].
  apply (load_after_save subs w text); auto.
Qed.

Lemma storable_well_formed (v : value) : storable v -> well_formed v.
Proof.
  induction v as [| |b|z|s|l IH|props IH] using value_induction;
    intros H; inversion H; subst; constructor; auto.
  - rewrite Forall_forall in *. auto.
  - rewrite Forall_forall in *. auto.
Qed.

Lemma record_well_formed (v : value) : is_record v -> well_formed v.
Proof.
  intros (props & -> & Hnd & Hall). constructor; [assumption|].
  eapply Forall_impl; [|exact Hall]. intros kv [->|H].
  - constructor.
  - now apply storable_well_formed.
Qed.

Lemma lookup_absent (key : string) (props : list (string * value)) :
  ~ In key (map fst props) -> lookup key props = None.
Proof.
  induction props as [|[k x] props IH]; simpl; intros H; [reflexivity|].
  destruct (String.eqb_spec k key) as [->|_]; [tauto|]. apply IH. tauto.
Qed.

Lemma prop_survivors (key : string) (props : list (string * value)) :
  NoDup (map fst props) ->
  Forall (fun kv => snd kv = Undefined \/ storable (snd kv)) props ->
  prop key (survivors props) = prop key props.
Proof.
  unfold prop, survivors.
  induction props as [|[k x] props IH]; intros Hnd Hall; [reflexivity|].
  inversion Hnd as [|? ? Hk Hrest]; inversion Hall as [|? ? Hx Hothers]; subst.
  cbn [snd] in Hx. specialize (IH Hrest Hothers). cbn [flat_map].
  destruct Hx as [->|Hx].
  - cbn [List.app lookup]. rewrite IH.
    destruct (String.eqb_spec k key) as [->|_]; [|reflexivity].
    now rewrite lookup_absent.
  - assert (Hkeep : (match x with
                     | Undefined => []
                     | _ => [(k, to_json x)]
                     end) = [(k, x)]).
    { rewrite (storable_to_json x Hx). destruct x; try reflexivity. inversion Hx. }
    rewrite Hkeep. cbn [List.app lookup].
    destruct (String.eqb k key); [reflexivity|assumption].
Qed.

(** Reading a property of a record that went through JSON text gives what
    reading it gave before. *)
Lemma record_reads (v : value) (key : string) :
  is_record v -> get (to_json v) key = get v key.
Proof.
  intros (props & -> & Hnd & Hall). cbn [to_json get]. f_equal.
  now apply prop_survivors.
Qed.

(** C6. A list of records saved in a store that has room for it is loaded
    back in the same order: as the identical list when its records are JSON
    values, and, when records hold properties set to undefined, as a list of
    the same length whose records give the same value for every property
    read.  When the store holds nothing under the key, or holds a text that
    does not parse, loading gives the empty list. *)
Theorem load_after_save_round_trip :
  (forall (subs : list value) (w : world),
      Forall storable subs ->
      (forall text, JSON.stringify (Arr subs) = Some text ->
                    fits STORAGE_KEY text (store w) = true) ->
      loadSubmissionsFromStorage (store (saveSubmissionsToStorage subs w))
        = Arr subs) /\
  (forall (subs : list value) (w : world),
      Forall is_record subs ->
      (forall text, JSON.stringify (Arr subs) = Some text ->
                    fits STORAGE_KEY text (store w) = true) ->
      exists loaded,
        loadSubmissionsFromStorage (store (saveSubmissionsToStorage subs w))
          = Arr loaded /\
        List.length loaded = List.length subs /\
        forall (i : nat) (r : value),
          nth_error subs i = Some r ->
          exists r', nth_error loaded i = Some r' /\
                     forall key, get r' key = get r key) /\
  (forall st : storage,
      getItem STORAGE_KEY st = None ->
      loadSubmissionsFromStorage st = Arr []) /\
  (forall (st : storage) (stored : string) (e : exn),
      getItem STORAGE_KEY st = Some stored ->
      JSON.parse stored = Throw e ->
      loadSubmissionsFromStorage st = Arr []).
Proof.
  split; [|split; [|split]].
  - intros subs w Hsubs Hfits.
    destruct (parse_stringify (Arr subs)) as (text & Htext & Hparse);
      [constructor; assumption|].
    apply (load_after_save subs w text); auto.
  - intros subs w Hsubs Hfits. exists (map to_json subs).
    split; [|split].
    + apply load_after_save_normal; [|assumption].
      eapply Forall_impl; [|exact Hsubs]. apply record_well_formed.
    + apply length_map.
    + intros i r Hi. exists (to_json r). split.
      * rewrite nth_error_map, Hi. reflexivity.
      * intros key. apply record_reads.
        rewrite Forall_forall in Hsubs. apply Hsubs.
        eapply nth_error_In; eassumption.
  - intros st Hnone. unfold loadSubmissionsFromStorage. now rewrite Hnone.
  - intros st stored e Hsome Hparse. unfold loadSubmissionsFromStorage.
    rewrite Hsome, Hparse. destruct (truthy (Str stored)); reflexivity.
Qed.

(** Decides [storable] and [Forall storable] on a closed value. *)
Ltac storable :=
  repeat first
    [ apply Forall_nil
    | apply Forall_cons
    | apply storable_null
    | apply storable_bool
    | apply storable_num
    | apply storable_str
    | apply storable_arr
    | apply storable_obj
    | apply NoDup_nil
    | apply NoDup_cons; [simpl; intuition discriminate|]
    | progress cbn [snd map fst record] ].

Lemma load_after_save_round_trip_witness :
  loadSubmissionsFromStorage
    (store (saveSubmissionsToStorage
              [record 2 "operations/124" "PENDING";
               record 1 "operations/123" "SUCCEEDED"] sample_world))
  = Arr [record 2 "operations/124" "PENDING";
         record 1 "operations/123" "SUCCEEDED"].
Proof.
  apply (proj1 load_after_save_round_trip).
  - storable.
  - intros text Htext. injection Htext as <-. vm_compute. reflexivity.
Defined.

(** A text that is not JSON, and what loading makes of it. *)
Example load_unparsable :
  loadSubmissionsFromStorage
    {| items := [(STORAGE_KEY, "[{oops")]; quota := 5000000 |} = Arr [].
Proof. reflexivity. Qed.

(** The record a refresh leaves when the answer has no details comes back
    from the store without its [details] property. *)
Example load_after_save_drops_undefined :
  loadSubmissionsFromStorage
    (store (saveSubmissionsToStorage
              [Obj [("operation", Str "operations/123");
                    ("status", Str "SUCCEEDED");
                    ("details", Undefined)]] sample_world))
  = Arr [Obj [("operation", Str "operations/123");
              ("status", Str "SUCCEEDED")]].
Proof. reflexivity. Qed.

End Persistence.

(** ** The scenarios of the specification, run *)

Section Scenarios.

Import WebRiskDemo.

(** A scan that answers one SOCIAL_ENGINEERING entry at HIGH: the result is
    a threat, the shortcut is offered and the form gets that abuse type. *)
Example scan_of_a_phishing_page :
  let answer := Obj [("scores", Arr risky_scores)] in
  let s := fst (handleScan 1700000000000 "2023-11-14T22:13:20.000Z"
                  (served answer) sample_state sample_world) in
  exists r,
    results s = [r] /\
    get r "status" = Ok (Str "threat") /\
    hasHighRisk (prop "scores" (spread r)) = Ok (Bool true) /\
    recommendAbuseType (prop "scores" (spread r)) = Ok (Str "SOCIAL_ENGINEERING").
Proof. eexists. repeat split; reflexivity. Qed.

(** A submission that is accepted as "submissions/123" is pending; a later
    refresh that answers SUCCEEDED settles it and saves the list. *)
Example submit_then_refresh :
  let form := [("url", Str "http://x"); ("evidence", Str "fake login form");
               ("abuseType", Str "MALWARE"); ("platform", Str "ANDROID");
               ("regionCodes", Arr [Str "US"])] in
  let (s1, w1) := handleSubmit 1700000000000 "2023-11-14T22:13:20.000Z"
                    (served (Obj [("operation", Str "submissions/123");
                                  ("timestamp", Str "2023-11-14T22:13:19Z")]))
                    (filling form) sample_world in
  let (s2, w2) := refreshSubmissionStatus (Str "submissions/123")
                    (fun _ => "2023-11-15T08:00:00.000Z")
                    (served (Obj [("status", Str "SUCCEEDED")])) s1 w1 in
  map (fun r => (get r "operation", get r "status")) (submissions s1)
    = [(Ok (Str "submissions/123"), Ok (Str "PENDING"))] /\
  map (fun r => (get r "operation", get r "status")) (submissions s2)
    = [(Ok (Str "submissions/123"), Ok (Str "SUCCEEDED"))] /\
  loadSubmissionsFromStorage (store w2) = Arr (map to_json (submissions s2)) /\
  network_calls (log w2)
    = [Fetch (submit_request form); Fetch (poll_request "123")].
Proof. repeat split; reflexivity. Qed.

End Scenarios.

(** ** The result cards *)

Section Cards.
Import WebRiskDemo Render.

(** The card [handleScan] makes of an answer whose [scores] is an array of
    objects. *)
Lemma card_of_answer (now : Z) (iso : string) (r : response) (data : value)
    (scores : list value) (s : State) (w : world) :
  json r = Ok data ->
  get data "scores" = Ok (Arr scores) ->
  Forall is_object scores ->
  exists (b : bool) (card : list (string * value)),
    results (fst (handleScan now iso (Responded r) s w))
      = Obj card :: results s /\
    prop "url" card = Str (url s) /\
    prop "status" card = Str (if b then "safe" else "threat") /\
    prop "scores" card = Arr scores /\
    Ok (prop "resolvedUriScore" card) = get data "resolvedUriScore" /\
    (b = true <-> Forall (has_level ["SAFE"]) scores).
Proof.
  intros Hjson Hscores Hobj.
  destruct (every_exactly_safe scores Hobj) as (b & Hb & Hiff).
  destruct data as [| | | | | |props]; simpl in Hscores; try discriminate.
  injection Hscores as Hs.
  exists b. eexists. split.
  - unfold handleScan, scanned. simpl. rewrite Hjson. simpl.
    rewrite Hs. simpl. rewrite Hb. reflexivity.
  - repeat split; try reflexivity; apply Hiff.
Qed.

(** X1. A scan whose answer has a [scores] array of entries puts in front
    of the results a card with the scanned url, the scores and the resolved
    scores as they were received; its status is "safe" when every entry's
    level is exactly SAFE and "threat" otherwise. *)
Theorem handleScan_stores_the_answer :
  forall (now : Z) (iso : string) (r : response) (data : value)
         (scores : list value) (s : State) (w : world),
    json r = Ok data ->
    get data "scores" = Ok (Arr scores) ->
    Forall is_object scores ->
    exists res,
      results (fst (handleScan now iso (Responded r) s w)) = res :: results s /\
      get res "url" = Ok (Str (url s)) /\
      get res "scores" = Ok (Arr scores) /\
      get res "resolvedUriScore" = get data "resolvedUriScore" /\
      (get res "status" = Ok (Str "safe") <-> Forall (has_level ["SAFE"]) scores) /\
      (get res "status" = Ok (Str "threat") <-> ~ Forall (has_level ["SAFE"]) scores).
Proof.
  intros now iso r data scores s w Hjson Hscores Hobj.
  destruct (card_of_answer now iso r data scores s w Hjson Hscores Hobj)
    as (b & card & Hcard & Hurl & Hstatus & Hsc & Hres & Hiff).
  exists (Obj card). cbn [get]. rewrite Hurl, Hstatus, Hsc, Hres.
  repeat split; try assumption; try reflexivity.
  - intros H. apply Hiff. destruct b; [reflexivity|discriminate].
  - intros H. apply Hiff in H. now subst.
  - intros H Hall. apply Hiff in Hall. subst. discriminate.
  - intros H. destruct b; [|reflexivity]. exfalso. apply H. now apply Hiff.
Qed.

Lemma handleScan_stores_the_answer_witness :
  exists res,
    results (fst (handleScan 1700000000000 "2023-11-14T22:13:20.000Z"
                    (served resolved_risky_response) sample_state sample_world))
      = res :: results sample_state /\
    get res "url" = Ok (Str (url sample_state)) /\
    get res "scores" = Ok (Arr all_safe_scores) /\
    get res "resolvedUriScore" = get resolved_risky_response "resolvedUriScore" /\
    (get res "status" = Ok (Str "safe")
     <-> Forall (has_level ["SAFE"]) all_safe_scores) /\
    (get res "status" = Ok (Str "threat")
     <-> ~ Forall (has_level ["SAFE"]) all_safe_scores).
Proof.
  apply (handleScan_stores_the_answer 1700000000000 "2023-11-14T22:13:20.000Z"
           {| ok := true; status := 200; json := Ok resolved_risky_response |}
           resolved_risky_response all_safe_scores sample_state sample_world).
  - reflexivity.
  - reflexivity.
  - repeat constructor; eexists; reflexivity.
Defined.

Lemma card_icon (now : Z) (iso : string) (r : response) (data : value)
    (scores : list value) (resolved : option (list value))
    (s : State) (w : world) :
  json r = Ok data ->
  get data "scores" = Ok (Arr scores) ->
  Forall is_object scores ->
  resolved_as data resolved ->
  exists (card : list (string * value)) (b safe : bool),
    results (fst (handleScan now iso (Responded r) s w))
      = Obj card :: results s /\
    prop "scores" card = Arr scores /\
    prop "status" card = Str (if safe then "safe" else "threat") /\
    (safe = true <-> Forall (has_level ["SAFE"]) scores) /\
    safeIcon (Obj card) = Ok b /\
    (b = true <-> specified_safe scores resolved).
Proof.
  intros Hjson Hscores Hobj Hres.
  destruct (card_of_answer now iso r data scores s w Hjson Hscores Hobj)
    as (safe & card & Hcard & _ & Hstatus & Hsc & Hr & Hsafe).
  destruct (safeIcon_is_specified_verdict card scores resolved Hsc Hobj)
    as (b & Hb & Hiff).
  - unfold resolved_as in Hres. rewrite <- Hr in Hres.
    destruct resolved as [rscores|].
    + destruct Hres as (rprops & Hrp & Hrs & Hro). injection Hrp as Hrp. eauto.
    + now injection Hres.
  - exists card, b, safe. auto 10.
Qed.

(** X2. The icon on the card of such a scan is the check mark exactly when
    every entry of the scores, and of the resolved scores when the answer
    has them, is SAFE or LOW. *)
Theorem scan_icon_follows_safe_low :
  forall (now : Z) (iso : string) (r : response) (data : value)
         (scores : list value) (resolved : option (list value))
         (s : State) (w : world),
    json r = Ok data ->
    get data "scores" = Ok (Arr scores) ->
    Forall is_object scores ->
    resolved_as data resolved ->
    exists (res : value) (b : bool),
      results (fst (handleScan now iso (Responded r) s w)) = res :: results s /\
      safeIcon res = Ok b /\
      (b = true <-> specified_safe scores resolved).
Proof.
  intros now iso r data scores resolved s w Hjson Hscores Hobj Hres.
  destruct (card_icon now iso r data scores resolved s w Hjson Hscores Hobj Hres)
    as (card & b & safe & Hcard & _ & _ & _ & Hicon & Hiff).
  exists (Obj card), b. auto.
Qed.

Lemma scan_icon_follows_safe_low_witness :
  exists (res : value) (b : bool),
    results (fst (handleScan 1700000000000 "2023-11-14T22:13:20.000Z"
                    (served resolved_risky_response) sample_state sample_world))
      = res :: results sample_state /\
    safeIcon res = Ok b /\
    (b = true <-> specified_safe all_safe_scores (Some risky_scores)).
Proof.
  apply (scan_icon_follows_safe_low 1700000000000 "2023-11-14T22:13:20.000Z"
           {| ok := true; status := 200; json := Ok resolved_risky_response |}
           resolved_risky_response all_safe_scores (Some risky_scores)
           sample_state sample_world).
  - reflexivity.
  - reflexivity.
  - repeat constructor; eexists; reflexivity.
  - eexists. split; [reflexivity|]. split; [reflexivity|].
    repeat constructor; eexists; reflexivity.
Defined.

Lemma medium_up_not_safe (e : value) :
  has_level MEDIUM_UP e -> ~ has_level ["SAFE"] e.
Proof.
  intros (c & Hc & Hin) (c' & Hc' & Hin').
  rewrite Hc in Hc'. injection Hc' as <-.
  simpl in Hin, Hin'. intuition (subst; discriminate).
Qed.

Lemma offersSubmit_scores (props : list (string * value)) (scores : list value) :
  prop "scores" props = Arr scores ->
  Forall is_object scores ->
  exists b, offersSubmit (Obj props) = Ok b /\
            (b = true <-> Exists (has_level MEDIUM_UP) scores).
Proof.
  intros Hs Hobj. unfold offersSubmit. cbn [get bind]. rewrite Hs.
  cbn [truthy hasHighRisk].
  destruct (some_level_in MEDIUM_UP scores Hobj) as (b & Hb & Hiff).
  rewrite Hb. cbn. eauto.
Qed.

(** X3. The card of such a scan offers "Submit URL" exactly when some entry
    of its scores is MEDIUM or above, and a card that offers it has status
    "threat" and the warning triangle as its icon. *)
Theorem submit_is_offered_only_on_warnings :
  forall (now : Z) (iso : string) (r : response) (data : value)
         (scores : list value) (resolved : option (list value))
         (s : State) (w : world),
    json r = Ok data ->
    get data "scores" = Ok (Arr scores) ->
    Forall is_object scores ->
    resolved_as data resolved ->
    exists (res : value) (offered : bool),
      results (fst (handleScan now iso (Responded r) s w)) = res :: results s /\
      offersSubmit res = Ok offered /\
      (offered = true <-> Exists (has_level MEDIUM_UP) scores) /\
      (offered = true ->
       get res "status" = Ok (Str "threat") /\ safeIcon res = Ok false).
Proof.
  intros now iso r data scores resolved s w Hjson Hscores Hobj Hres.
  destruct (card_icon now iso r data scores resolved s w Hjson Hscores Hobj Hres)
    as (card & b & safe & Hcard & Hsc & Hstatus & Hsafe & Hicon & Hb).
  destruct (offersSubmit_scores card scores Hsc Hobj) as (offered & Hoff & Hiff).
  exists (Obj card), offered. split; [assumption|]. split; [assumption|].
  split; [assumption|]. intros Ho. apply Hiff in Ho.
  apply Exists_exists in Ho. destruct Ho as (e & Hin & Hup).
  split.
  - cbn [get]. rewrite Hstatus. destruct safe; [|reflexivity]. exfalso.
    destruct Hsafe as [Hsafe _]. specialize (Hsafe eq_refl).
    rewrite Forall_forall in Hsafe.
    exact (medium_up_not_safe e Hup (Hsafe e Hin)).
  - rewrite Hicon. destruct b; [|reflexivity]. exfalso.
    destruct Hb as [Hb _]. destruct (Hb eq_refl) as [Hall _].
    rewrite Forall_forall in Hall. exact (levels_disjoint e (Hall e Hin) Hup).
Qed.

Lemma submit_is_offered_only_on_warnings_witness :
  exists (res : value) (offered : bool),
    results (fst (handleScan 1700000000000 "2023-11-14T22:13:20.000Z"
                    (served (Obj [("scores", Arr sample_scores)]))
                    sample_state sample_world))
      = res :: results sample_state /\
    offersSubmit res = Ok offered /\
    (offered = true <-> Exists (has_level MEDIUM_UP) sample_scores) /\
    (offered = true ->
     get res "status" = Ok (Str "threat") /\ safeIcon res = Ok false).
Proof.
  apply (submit_is_offered_only_on_warnings 1700000000000
           "2023-11-14T22:13:20.000Z"
           {| ok := true; status := 200;
              json := Ok (Obj [("scores", Arr sample_scores)]) |}
           (Obj [("scores", Arr sample_scores)]) sample_scores None
           sample_state sample_world).
  - reflexivity.
  - reflexivity.
  - repeat constructor; eexists; reflexivity.
  - reflexivity.
Defined.

(** X4. The card of a failed scan has no scores: its icon is the warning
    triangle and it does not offer "Submit URL". *)
Theorem error_card_warns_without_offer :
  forall (now : Z) (iso : string) (o : fetch_outcome) (s : State) (w : world)
         (e : exn),
    scan_fault o e ->
    exists res,
      results (fst (handleScan now iso o s w)) = res :: results s /\
      get res "scores" = Ok Undefined /\
      safeIcon res = Ok false /\
      offersSubmit res = Ok false.
Proof.
  intros now iso o s w e Hfault.
  assert (Hthrow : scanned now iso (url s) o = Throw e).
  { destruct Hfault as [e|r e Hjson|r data Hjson Hscores];
      unfold scanned; simpl.
    - reflexivity.
    - rewrite Hjson. reflexivity.
    - rewrite Hjson. simpl. rewrite Hscores. reflexivity. }
  unfold handleScan. rewrite Hthrow. cbn [fst results].
  eexists. split; [reflexivity|]. repeat split; reflexivity.
Qed.

Lemma error_card_warns_without_offer_witness :
  exists res,
    results (fst (handleScan 1700000000000 "2023-11-14T22:13:20.000Z"
                    (served (Obj [("error", Str "quota exceeded")]))
                    sample_state sample_world))
      = res :: results sample_state /\
    get res "scores" = Ok Undefined /\
    safeIcon res = Ok false /\
    offersSubmit res = Ok false.
Proof.
  apply (error_card_warns_without_offer 1700000000000 "2023-11-14T22:13:20.000Z"
           (served (Obj [("error", Str "quota exceeded")]))
           sample_state sample_world (Error "No scores received from API")).
  apply (scores_missing _ (Obj [("error", Str "quota exceeded")])); reflexivity.
Defined.

End Cards.

Section Chips.
Import WebRiskDemo Render.

Lemma has_level_includes (levels : list string) (props : list (string * value)) :
  has_level levels (Obj props)
  <-> includes levels (prop "confidenceLevel" props) = true.
Proof.
  rewrite <- level_in_true, level_in_object. split; congruence.
Qed.

(** The chip of an entry is green for SAFE and LOW, orange or red for MEDIUM
    and above, gray for anything else. *)
Lemma chip_colour (e : value) :
  is_object e ->
  exists c,
    chip e = Ok c /\
    (c = green <-> has_level SAFE_LOW e) /\
    (c = orange \/ c = red <-> has_level MEDIUM_UP e) /\
    (c = gray <-> unknown_level e).
Proof.
  intros [props ->]. unfold chip, unknown_level. cbn [get bind].
  eexists. split; [reflexivity|].
  rewrite !has_level_includes. unfold getConfidenceLevelStyle.
  change (includes MEDIUM_UP (prop "confidenceLevel" props))
    with (is_str (prop "confidenceLevel" props) "MEDIUM"
          || includes ["HIGH"; "HIGHER"; "EXTREMELY_HIGH"]
               (prop "confidenceLevel" props)).
  change (includes SAFE_LOW (prop "confidenceLevel" props))
    with (includes ["SAFE"; "LOW"] (prop "confidenceLevel" props)).
  assert (Hdis : includes ["SAFE"; "LOW"] (prop "confidenceLevel" props) = true ->
                 is_str (prop "confidenceLevel" props) "MEDIUM"
                 || includes ["HIGH"; "HIGHER"; "EXTREMELY_HIGH"]
                      (prop "confidenceLevel" props) = false).
  { destruct (prop "confidenceLevel" props) as [| | | |c| |]; try discriminate.
    cbn. destruct (String.eqb_spec c "SAFE") as [->|_]; [reflexivity|].
    destruct (String.eqb_spec c "LOW") as [->|_]; [reflexivity|discriminate]. }
  destruct (includes ["SAFE"; "LOW"] (prop "confidenceLevel" props)).
  - rewrite (Hdis eq_refl). unfold green, orange, red, gray.
    repeat split; try discriminate; try tauto;
      try (intros [H|H]; discriminate);
      try (intros (_ & H & _); now contradiction H);
      try (eexists; reflexivity).
  - clear Hdis.
    destruct (is_str (prop "confidenceLevel" props) "MEDIUM");
      [|destruct (includes ["HIGH"; "HIGHER"; "EXTREMELY_HIGH"]
                   (prop "confidenceLevel" props))];
      unfold green, orange, red, gray; cbn [orb];
      repeat split; try discriminate; try tauto;
      try (intros [H|H]; discriminate);
      try (intros (_ & _ & H); now contradiction H);
      try (eexists; reflexivity).
Qed.

Lemma chip_total (e : value) : is_object e -> exists c, chip e = Ok c.
Proof. intros [props ->]. cbn. eauto. Qed.

(** X5. On a card with scores, and resolved scores or none, every entry has
    a chip; "Submit URL" is offered exactly when a chip of the original
    scores is orange or red, and the icon is the check mark exactly when
    every chip, of the original and of the resolved scores, is green. *)
Theorem chips_agree_with_icon_and_offer :
  forall (card : list (string * value)) (scores : list value)
         (resolved : option (list value)),
    prop "scores" card = Arr scores ->
    Forall is_object scores ->
    resolved_as (Obj card) resolved ->
    Forall (fun e => exists c, chip e = Ok c)
           (scores ++ match resolved with Some rs => rs | None => [] end) /\
    (offersSubmit (Obj card) = Ok true
     <-> Exists (fun e => chip e = Ok orange \/ chip e = Ok red) scores) /\
    (safeIcon (Obj card) = Ok true
     <-> Forall (fun e => chip e = Ok green)
           (scores ++ match resolved with Some rs => rs | None => [] end)).
Proof.
  intros card scores resolved Hs Hobj Hres.
  assert (Hrobj : Forall is_object
                    (match resolved with Some rs => rs | None => [] end)).
  { destruct resolved as [rs|]; [|constructor].
    destruct Hres as (rprops & _ & _ & H). exact H. }
  assert (Hgreen : forall l, Forall is_object l ->
            (Forall (has_level SAFE_LOW) l
             <-> Forall (fun e => chip e = Ok green) l)).
  { intros l Hl. rewrite !Forall_forall. rewrite Forall_forall in Hl.
    split; intros H e Hin; specialize (H e Hin);
      destruct (chip_colour e (Hl e Hin)) as (c & Hc & Hg & _).
    - rewrite Hc. f_equal. now apply Hg.
    - apply Hg. congruence. }
  split; [|split].
  - apply Forall_app. split.
    + eapply Forall_impl; [|exact Hobj]. apply chip_total.
    + eapply Forall_impl; [|exact Hrobj]. apply chip_total.
  - destruct (offersSubmit_scores card scores Hs Hobj) as (b & Hb & Hiff).
    rewrite Hb. rewrite !Exists_exists. rewrite Exists_exists in Hiff.
    rewrite Forall_forall in Hobj. split.
    + intros H. injection H as ->. destruct Hiff as [Hiff _].
      destruct (Hiff eq_refl) as (e & Hin & Hup). exists e. split; [assumption|].
      destruct (chip_colour e (Hobj e Hin)) as (c & Hc & _ & Hor & _).
      rewrite Hc. apply Hor in Hup. destruct Hup as [->| ->]; auto.
    + intros (e & Hin & Hchip). f_equal. apply Hiff. exists e.
      split; [assumption|].
      destruct (chip_colour e (Hobj e Hin)) as (c & Hc & _ & Hor & _).
      apply Hor. rewrite Hc in Hchip. destruct Hchip as [H|H]; injection H; auto.
  - destruct (safeIcon_is_specified_verdict card scores resolved Hs Hobj)
      as (b & Hb & Hiff).
    { unfold resolved_as in Hres. cbn [get] in Hres.
      destruct resolved as [rs|].
      - destruct Hres as (rprops & Hr & Hrs & Hro). injection Hr as Hr. eauto.
      - now injection Hres. }
    rewrite Hb. rewrite Forall_app, <- !Hgreen by assumption.
    unfold specified_safe in Hiff. split.
    + intros H. injection H as ->. destruct Hiff as [Hiff _].
      destruct (Hiff eq_refl) as [H1 H2]. split; [assumption|].
      destruct resolved; [assumption|constructor].
    + intros [H1 H2]. f_equal. apply Hiff. split; [assumption|].
      destruct resolved; [assumption|exact I].
Qed.

Lemma chips_agree_with_icon_and_offer_witness :
  Forall (fun e => exists c, chip e = Ok c) (sample_scores ++ risky_scores) /\
  (offersSubmit (Obj [("scores", Arr sample_scores);
                      ("resolvedUriScore", Obj [("scores", Arr risky_scores)])])
     = Ok true
   <-> Exists (fun e => chip e = Ok orange \/ chip e = Ok red) sample_scores) /\
  (safeIcon (Obj [("scores", Arr sample_scores);
                  ("resolvedUriScore", Obj [("scores", Arr risky_scores)])])
     = Ok true
   <-> Forall (fun e => chip e = Ok green) (sample_scores ++ risky_scores)).
Proof.
  apply (chips_agree_with_icon_and_offer
           [("scores", Arr sample_scores);
            ("resolvedUriScore", Obj [("scores", Arr risky_scores)])]
           sample_scores (Some risky_scores)).
  - reflexivity.
  - repeat constructor; eexists; reflexivity.
  - eexists. split; [reflexivity|]. split; [reflexivity|].
    repeat constructor; eexists; reflexivity.
Defined.

(** Reading after writing a property. *)
Lemma prop_set_same (props : list (string * value)) (key : string) (v : value) :
  prop key (JS.set props key v) = v.
Proof.
  unfold prop. induction props as [|[k x] props IH]; simpl.
  - now rewrite String.eqb_refl.
  - destruct (String.eqb k key) eqn:E; simpl; rewrite E; [reflexivity|exact IH].
Qed.

Lemma prop_set_other (props : list (string * value)) (key other : string)
    (v : value) :
  other <> key -> prop other (JS.set props key v) = prop other props.
Proof.
  intros Hne. unfold prop. induction props as [|[k x] props IH]; simpl.
  - destruct (String.eqb_spec key other) as [->|_]; [contradiction|reflexivity].
  - destruct (String.eqb_spec k key) as [->|Hk]; simpl.
    + destruct (String.eqb_spec key other) as [->|_]; [contradiction|reflexivity].
    + destruct (String.eqb k other); [reflexivity|exact IH].
Qed.

Lemma get_total (v x : value) (key other : string) :
  get v key = Ok x -> exists y, get v other = Ok y.
Proof.
  destruct v; simpl; try discriminate; intros _; eauto;
    destruct (String.eqb other "length"); eauto.
Qed.

Lemma some_find (f : value -> result bool) (l : list value) :
  some f l = Ok true -> exists x, find f l = Ok x /\ f x = Ok true.
Proof.
  induction l as [|x l IH]; simpl; [discriminate|].
  destruct (f x) as [[]|e] eqn:E; simpl; [eauto|exact IH|discriminate].
Qed.

(** X6. On a card that offers "Submit URL", [handleQuickSubmit] does not
    throw: it writes the card's url and the recommended abuse type in the
    form and leaves every other field of the form, the results and the
    submissions as they were. *)
Theorem handleQuickSubmit_fills_only_url_and_abuse_type :
  forall (result : value) (s : State),
    offersSubmit result = Ok true ->
    exists (s' : State) (u scores a : value),
      handleQuickSubmit result s = Ok s' /\
      get result "url" = Ok u /\
      get result "scores" = Ok scores /\
      recommendAbuseType scores = Ok a /\
      prop "url" (submissionForm s') = u /\
      prop "abuseType" (submissionForm s') = a /\
      (forall key, key <> "url" -> key <> "abuseType" ->
                   prop key (submissionForm s') = prop key (submissionForm s)) /\
      results s' = results s /\
      submissions s' = submissions s.
Proof.
  intros result s Hoff. unfold offersSubmit in Hoff.
  destruct (get result "scores") as [scores|e] eqn:Hs; [|discriminate].
  cbn [bind] in Hoff.
  destruct (truthy scores) eqn:Ht; [|discriminate].
  destruct (get_total result scores "scores" "url" Hs) as [u Hu].
  assert (Hrec : exists a, recommendAbuseType scores = Ok a).
  { destruct scores as [| | | | |l|]; try discriminate.
    cbn [hasHighRisk] in Hoff.
    destruct (some (level_in MEDIUM_UP) l) as [[]|e] eqn:Hsome;
      try discriminate.
    destruct (some_find _ _ Hsome) as (x & Hfind & Hx).
    unfold recommendAbuseType. rewrite Hfind. cbn [bind].
    unfold level_in in Hx.
    destruct (get x "confidenceLevel") as [c|e] eqn:Hc; [|discriminate].
    destruct (get_total x c "confidenceLevel" "threatType" Hc) as [t Ht'].
    unfold get_opt. destruct x; try discriminate; rewrite Ht'; cbn; eauto. }
  destruct Hrec as [a Ha].
  unfold handleQuickSubmit. rewrite Hu, Hs. cbn [bind]. rewrite Ha. cbn [bind].
  eexists _, u, scores, a. split; [reflexivity|]. cbn [submissionForm results submissions].
  repeat split; try reflexivity; try assumption.
  - rewrite prop_set_other by discriminate. apply prop_set_same.
  - apply prop_set_same.
  - intros key Hk1 Hk2. rewrite !prop_set_other by assumption. reflexivity.
Qed.

Lemma handleQuickSubmit_fills_only_url_and_abuse_type_witness :
  exists (s' : State) (u scores a : value),
    handleQuickSubmit extended_coverage_result (filling empty_evidence_form)
      = Ok s' /\
    get extended_coverage_result "url" = Ok u /\
    get extended_coverage_result "scores" = Ok scores /\
    recommendAbuseType scores = Ok a /\
    prop "url" (submissionForm s') = u /\
    prop "abuseType" (submissionForm s') = a /\
    (forall key, key <> "url" -> key <> "abuseType" ->
                 prop key (submissionForm s')
                 = prop key (submissionForm (filling empty_evidence_form))) /\
    results s' = results (filling empty_evidence_form) /\
    submissions s' = submissions (filling empty_evidence_form).
Proof.
  apply (handleQuickSubmit_fills_only_url_and_abuse_type
           extended_coverage_result (filling empty_evidence_form)).
  reflexivity.
Defined.

End Chips.

(** ** The id a refresh asks with *)

Section OperationId.

Lemma append_assoc (a b c : string) : ((a ++ b) ++ c = a ++ (b ++ c))%string.
Proof. induction a as [|x a IH]; simpl; [reflexivity|]. now rewrite IH. Qed.

Lemma split_nonempty (s : string) : split s <> [].
Proof.
  destruct s as [|c s]; simpl; [discriminate|].
  destruct (Ascii.eqb c "/"); [discriminate|].
  destruct (split s); discriminate.
Qed.

Lemma split_slash_free (s : string) : Forall slash_free (split s).
Proof.
  induction s as [|c s IH]; simpl.
  - repeat constructor.
  - destruct (Ascii.eqb_spec c "/"%char) as [->|Hc].
    + constructor; [exact I|assumption].
    + destruct (split s) as [|seg segs].
      * repeat constructor. assumption.
      * inversion IH; subst. constructor; [split; assumption|assumption].
Qed.

Lemma concat_split (s : string) : String.concat "/" (split s) = s.
Proof.
  induction s as [|c s IH]; simpl; [reflexivity|].
  pose proof (split_nonempty s) as Hne.
  destruct (Ascii.eqb_spec c "/"%char) as [->|Hc];
    destruct (split s) as [|seg segs]; try contradiction.
  - change (String.concat "/" (EmptyString :: seg :: segs))
      with (String "/" (String.concat "/" (seg :: segs))).
    now rewrite IH.
  - destruct segs as [|seg' segs].
    + simpl in *. now rewrite IH.
    + change (String.concat "/" (String c seg :: seg' :: segs))
        with (String c (String.concat "/" (seg :: seg' :: segs))).
      now rewrite IH.
Qed.

Lemma split_slash_free_string (s : string) : slash_free s -> split s = [s].
Proof.
  induction s as [|c s IH]; intros Hs; [reflexivity|].
  destruct Hs as [Hc Hs]. simpl. rewrite (IH Hs).
  destruct (Ascii.eqb_spec c "/"%char) as [->|_]; [contradiction|reflexivity].
Qed.

Lemma concat_last (segs : list string) :
  segs <> [] ->
  String.concat "/" segs = List.last segs EmptyString \/
  exists prefix,
    String.concat "/" segs = (prefix ++ "/" ++ List.last segs EmptyString)%string.
Proof.
  induction segs as [|seg segs IH]; intros Hne; [contradiction|].
  destruct segs as [|seg' segs].
  - left. reflexivity.
  - right. destruct IH as [IH|[prefix IH]]; [discriminate| |].
    + exists seg. cbn [String.concat List.last] in *. now rewrite IH.
    + exists (seg ++ "/" ++ prefix)%string.
      cbn [String.concat List.last] in *. rewrite IH.
      now rewrite !append_assoc.
Qed.

Lemma last_in {A} (l : list A) (d : A) : l <> [] -> In (List.last l d) l.
Proof.
  induction l as [|x l IH]; intros Hne; [contradiction|].
  destruct l as [|y l]; [left; reflexivity|].
  right. apply IH. discriminate.
Qed.

(** X7. The id [refreshSubmissionStatus] polls with, the last piece of
    [operation.split('/')], holds no slash, and the operation is either that
    id or something, a slash and that id. *)
Theorem operationId_is_the_last_segment :
  forall operation : string,
    let operationId := pop (split operation) in
    slash_free operationId /\
    (operation = operationId \/
     exists prefix, operation = (prefix ++ "/" ++ operationId)%string) /\
    (slash_free operation -> operationId = operation).
Proof.
  intros operation operationId. unfold operationId, pop.
  pose proof (split_nonempty operation) as Hne.
  pose proof (split_slash_free operation) as Hfree.
  pose proof (concat_split operation) as Hcat.
  split; [|split].
  - rewrite Forall_forall in Hfree. apply Hfree. now apply last_in.
  - destruct (concat_last (split operation) Hne) as [H|[prefix H]];
      rewrite Hcat in H; [left|right; exists prefix]; exact H.
  - intros Hs. now rewrite split_slash_free_string.
Qed.

Lemma operationId_is_the_last_segment_witness :
  pop (split "123") = "123".
Proof.
  apply (proj2 (proj2 (operationId_is_the_last_segment "123"))).
  simpl. repeat split; discriminate.
Defined.

End OperationId.

(** ** Submitting and refreshing in [WebRiskDemo] *)

Section History.
Import WebRiskDemo.

Lemma map_from_total {A} (f : nat -> value -> result A) (l : list value) :
  Forall (fun x => forall i, exists y, f i x = Ok y) l ->
  forall i, exists l', map_from i f l = Ok l'.
Proof.
  induction 1 as [|x l Hx _ IH]; intros i; simpl; [eauto|].
  destruct (Hx i) as [y Hy]. destruct (IH (S i)) as [ys Hys].
  rewrite Hy, Hys. simpl. eauto.
Qed.

Lemma polled_ok (target : string) (clock : nat -> string) (r : response)
    (data st details : value) (subs : list value) :
  ok r = true ->
  json r = Ok data ->
  get data "status" = Ok st ->
  get data "details" = Ok details ->
  Forall is_object subs ->
  exists updated,
    polled target clock (Responded r) subs = Ok updated /\
    List.length updated = List.length subs /\
    forall (i : nat) (sub : value),
      nth_error subs i = Some sub ->
      exists y, update target data (clock i) sub = Ok y /\
                nth_error updated i = Some y.
Proof.
  intros Hok Hjson Hst Hd Hobj. unfold polled. cbn [awaited bind].
  rewrite Hok, Hjson. cbn [negb bind].
  destruct (map_from_total (fun i sub => update target data (clock i) sub) subs)
    with (i := 0) as [updated Hup].
  { eapply Forall_impl; [|exact Hobj]. intros sub [props ->] i.
    unfold update. cbn [get bind]. rewrite Hst, Hd. cbn [bind].
    destruct (is_str _ _); eauto. }
  exists updated. split; [assumption|].
  destruct (map_from_nth _ _ _ _ Hup) as [Hlen Hnth]. split; [assumption|].
  exact Hnth.
Qed.

(** X8. A status request that is answered ok rewrites every record whose
    operation is the one asked for: the record gets the status and the
    details of the answer and a new [lastUpdated], and every other property
    of it reads as before. *)
Theorem refreshSubmissionStatus_updates_the_record :
  forall (target : string) (clock : nat -> string) (r : response)
         (data st details : value) (s : State) (w : world),
    ok r = true ->
    json r = Ok data ->
    get data "status" = Ok st ->
    get data "details" = Ok details ->
    Forall is_object (submissions s) ->
    forall (i : nat) (sub : value),
      nth_error (submissions s) i = Some sub ->
      get sub "operation" = Ok (Str target) ->
      exists sub',
        nth_error
          (submissions
             (fst (refreshSubmissionStatus (Str target) clock (Responded r) s w)))
          i = Some sub' /\
        get sub' "status" = Ok st /\
        get sub' "lastUpdated" = Ok (Str (clock i)) /\
        get sub' "details" = Ok details /\
        forall key, key <> "status" -> key <> "lastUpdated" -> key <> "details" ->
                    get sub' key = get sub key.
Proof.
  intros target clock r data st details s w Hok Hjson Hst Hd Hobj i sub Hi Hop.
  destruct (polled_ok target clock r data st details (submissions s)
              Hok Hjson Hst Hd Hobj) as (updated & Hp & _ & Hnth).
  unfold refreshSubmissionStatus. rewrite Hp. cbn [fst submissions].
  destruct (Hnth i sub Hi) as (y & Hy & Hn).
  rewrite Forall_forall in Hobj.
  destruct (Hobj sub (nth_error_In _ _ Hi)) as [props ->].
  unfold update in Hy. rewrite Hop in Hy. cbn [bind is_str] in Hy.
  rewrite String.eqb_refl, Hst, Hd in Hy. cbn [bind spread] in Hy.
  injection Hy as <-. eexists. split; [exact Hn|]. cbn [get].
  repeat split.
  - rewrite !prop_set_other by discriminate. now rewrite prop_set_same.
  - rewrite prop_set_other by discriminate. now rewrite prop_set_same.
  - now rewrite prop_set_same.
  - intros key H1 H2 H3. now rewrite !prop_set_other by assumption.
Qed.

Lemma refreshSubmissionStatus_updates_the_record_witness :
  exists sub',
    nth_error
      (submissions
         (fst (refreshSubmissionStatus (Str "operations/2")
                 (fun _ => "2023-11-15T08:00:00.000Z")
                 (served (Obj [("status", Str "CLOSED")]))
                 (history [record 1 "operations/1" "PENDING";
                           record 2 "operations/2" "PENDING"])
                 sample_world))) 1 = Some sub' /\
    get sub' "status" = Ok (Str "CLOSED") /\
    get sub' "lastUpdated" = Ok (Str "2023-11-15T08:00:00.000Z") /\
    get sub' "details" = Ok Undefined /\
    forall key, key <> "status" -> key <> "lastUpdated" -> key <> "details" ->
                get sub' key = get (record 2 "operations/2" "PENDING") key.
Proof.
  apply (refreshSubmissionStatus_updates_the_record "operations/2"
           (fun _ => "2023-11-15T08:00:00.000Z")
           {| ok := true; status := 200;
              json := Ok (Obj [("status", Str "CLOSED")]) |}
           (Obj [("status", Str "CLOSED")]) (Str "CLOSED") Undefined
           (history [record 1 "operations/1" "PENDING";
                     record 2 "operations/2" "PENDING"])
           sample_world).
  - reflexivity.
  - reflexivity.
  - reflexivity.
  - reflexivity.
  - repeat constructor; eexists; reflexivity.
  - reflexivity.
  - reflexivity.
Defined.

(** X9. When the status request fails (it is rejected, the answer is not
    ok, or its body does not parse) [refreshSubmissionStatus] changes
    nothing: the state and the store are as before and no write to the store
    is made.  This holds for any argument, a string or not. *)
Theorem refreshSubmissionStatus_failure_changes_nothing :
  forall (operation : value) (clock : nat -> string) (o : fetch_outcome)
         (s : State) (w : world),
    poll_fault o ->
    fst (refreshSubmissionStatus operation clock o s w) = s /\
    store (snd (refreshSubmissionStatus operation clock o s w)) = store w /\
    storage_writes (log (snd (refreshSubmissionStatus operation clock o s w)))
      = storage_writes (log w).
Proof.
  intros operation clock o s w Hfault. unfold refreshSubmissionStatus.
  destruct operation as [| | | |target| |]; try (repeat split; reflexivity).
  assert (Hp : exists e, polled target clock o (submissions s) = Throw e).
  { unfold polled. destruct Hfault as [e|r Hok|r e Hjson]; cbn [awaited bind].
    - eauto.
    - rewrite Hok. cbn. eauto.
    - destruct (ok r); cbn; [rewrite Hjson|]; cbn; eauto. }
  destruct Hp as [e Hp]. rewrite Hp. cbn [fst snd emit store log].
  repeat split. unfold storage_writes. rewrite filter_app. cbn.
  now rewrite List.app_nil_r.
Qed.

Lemma refreshSubmissionStatus_failure_changes_nothing_witness :
  fst (refreshSubmissionStatus (Str "operations/1") (fun _ => "t")
         (Responded {| ok := false; status := 404;
                       json := Ok (Obj [("status", Str "SUCCEEDED")]) |})
         (history [record 1 "operations/1" "PENDING"]) sample_world)
  = history [record 1 "operations/1" "PENDING"].
Proof.
  apply (refreshSubmissionStatus_failure_changes_nothing (Str "operations/1")
           (fun _ => "t")
           (Responded {| ok := false; status := 404;
                         json := Ok (Obj [("status", Str "SUCCEEDED")]) |})
           (history [record 1 "operations/1" "PENDING"]) sample_world).
  apply poll_not_ok. reflexivity.
Defined.

Lemma storage_writes_emit_fetch (l : list effect) (r : request) :
  storage_writes (l ++ [Fetch r]) = storage_writes l.
Proof. unfold storage_writes. rewrite filter_app. cbn. apply List.app_nil_r. Qed.

Lemma submitted_nothing (now : Z) (iso : string) (form : list (string * value))
    (o : fetch_outcome) :
  submit_fault o ->
  submitted now iso form o = Ok None \/ exists e, submitted now iso form o = Throw e.
Proof.
  intros [e|r e Hjson|r data operation Hjson Hop Hfalsy];
    unfold submitted; cbn [awaited bind].
  - eauto.
  - rewrite Hjson. cbn. eauto.
  - rewrite Hjson. cbn [bind]. rewrite Hop. cbn [bind]. rewrite Hfalsy. auto.
Qed.

(** X10. A submission that is rejected, whose answer does not parse, or
    whose answer carries no operation leaves the list and the form as they
    were, so that the user can send it again; the store is not written, and
    [isSubmitting] is off again. *)
Theorem handleSubmit_without_operation_keeps_the_form :
  forall (now : Z) (iso : string) (o : fetch_outcome) (s : State) (w : world),
    submit_fault o ->
    let out := handleSubmit now iso o s w in
    submissions (fst out) = submissions s /\
    submissionForm (fst out) = submissionForm s /\
    isSubmitting (fst out) = false /\
    store (snd out) = store w /\
    storage_writes (log (snd out)) = storage_writes (log w).
Proof.
  intros now iso o s w Hfault. unfold handleSubmit.
  destruct (submitted_nothing now iso (submissionForm s) o Hfault) as [->|[e ->]];
    cbn [fst snd submissions submissionForm isSubmitting emit store log];
    repeat split; apply storage_writes_emit_fetch.
Qed.

Lemma handleSubmit_without_operation_keeps_the_form_witness :
  let out := handleSubmit 1700000000000 "2023-11-14T22:13:20.000Z"
               (served (Obj [("error", Str "Invalid URL")]))
               (filling quick_form) sample_world in
  submissions (fst out) = [] /\
  submissionForm (fst out) = quick_form /\
  isSubmitting (fst out) = false /\
  store (snd out) = store sample_world /\
  storage_writes (log (snd out)) = [].
Proof.
  apply (handleSubmit_without_operation_keeps_the_form 1700000000000
           "2023-11-14T22:13:20.000Z"
           (Responded {| ok := true; status := 200;
                         json := Ok (Obj [("error", Str "Invalid URL")]) |})
           (filling quick_form) sample_world).
  apply (submit_without_operation _ (Obj [("error", Str "Invalid URL")]) Undefined);
    reflexivity.
Defined.

(** X11. Whatever the answer's [ok] flag, an answer with an operation makes
    [handleSubmit] put a new record in front of the list: it is PENDING,
    carries the operation and the timestamp of the answer, the clock
    readings, and the url, evidence, abuse type and platform of the form;
    the region codes that were sent are not kept.  The form is reset. *)
Theorem handleSubmit_files_a_pending_record :
  forall (now : Z) (iso : string) (r : response) (data operation : value)
         (s : State) (w : world),
    json r = Ok data ->
    get data "operation" = Ok operation ->
    truthy operation = true ->
    let form := submissionForm s in
    let out := handleSubmit now iso (Responded r) s w in
    exists newSubmission,
      submissions (fst out) = newSubmission :: submissions s /\
      get newSubmission "status" = Ok (Str "PENDING") /\
      get newSubmission "operation" = Ok operation /\
      get newSubmission "timestamp" = get data "timestamp" /\
      get newSubmission "id" = Ok (Num now) /\
      get newSubmission "lastUpdated" = Ok (Str iso) /\
      (forall key, In key ["url"; "evidence"; "abuseType"; "platform"] ->
                   get newSubmission key = Ok (prop key form)) /\
      get newSubmission "regionCodes" = Ok Undefined /\
      submissionForm (fst out) = emptyForm /\
      isSubmitting (fst out) = false.
Proof.
  intros now iso r data operation s w Hjson Hop Htruthy form out.
  assert (Hts : exists ts, get data "timestamp" = Ok ts).
  { destruct data; try discriminate; cbn; eauto. }
  destruct Hts as [ts Hts]. subst out. unfold handleSubmit, submitted.
  cbn [awaited bind]. rewrite Hjson. cbn [bind]. rewrite Hop. cbn [bind].
  rewrite Htruthy, Hts. cbn [bind fst submissions submissionForm isSubmitting].
  eexists. split; [reflexivity|].
  repeat split; try reflexivity.
  intros key Hkey. cbn in Hkey.
  destruct Hkey as [<-|[<-|[<-|[<-|[]]]]]; reflexivity.
Qed.

Lemma handleSubmit_files_a_pending_record_witness :
  let s := filling quick_form in
  let form := submissionForm s in
  let out := handleSubmit 1700000000000 "2023-11-14T22:13:20.000Z"
               (Responded {| ok := false; status := 500;
                             json := Ok (Obj [("operation", Str "operations/7")]) |})
               s sample_world in
  exists newSubmission,
    submissions (fst out) = newSubmission :: submissions s /\
    get newSubmission "status" = Ok (Str "PENDING") /\
    get newSubmission "operation" = Ok (Str "operations/7") /\
    get newSubmission "timestamp"
    = get (Obj [("operation", Str "operations/7")]) "timestamp" /\
    get newSubmission "id" = Ok (Num 1700000000000) /\
    get newSubmission "lastUpdated" = Ok (Str "2023-11-14T22:13:20.000Z") /\
    (forall key, In key ["url"; "evidence"; "abuseType"; "platform"] ->
                 get newSubmission key = Ok (prop key form)) /\
    get newSubmission "regionCodes" = Ok Undefined /\
    submissionForm (fst out) = emptyForm /\
    isSubmitting (fst out) = false.
Proof.
  apply (handleSubmit_files_a_pending_record 1700000000000
           "2023-11-14T22:13:20.000Z"
           {| ok := false; status := 500;
              json := Ok (Obj [("operation", Str "operations/7")]) |}
           (Obj [("operation", Str "operations/7")]) (Str "operations/7")
           (filling quick_form) sample_world).
  - reflexivity.
  - reflexivity.
  - reflexivity.
Defined.

End History.

(** ** The store follows the list *)

Section Store.
Import WebRiskDemo.

Lemma has_room_fits (l : list value) (st : storage) :
  has_room l st = true ->
  forall text, JSON.stringify (Arr l) = Some text -> fits STORAGE_KEY text st = true.
Proof. unfold has_room. intros H text Htext. now rewrite Htext in H. Qed.

Lemma save_store (l : list value) (w : world) :
  store (saveSubmissionsToStorage l w)
  = if has_room l (store w)
    then {| items := (STORAGE_KEY,
                      match JSON.stringify (Arr l) with
                      | Some t => t
                      | None => "undefined"
                      end) :: without STORAGE_KEY (items (store w));
            quota := quota (store w) |}
    else store w.
Proof.
  unfold saveSubmissionsToStorage, has_room, setItem. cbn [emit store JSON.stringify].
  destruct (fits _ _ _); reflexivity.
Qed.

Lemma prop_well_formed (key : string) (props : list (string * value)) :
  Forall (fun kv => well_formed (snd kv)) props -> well_formed (prop key props).
Proof.
  unfold prop. induction 1 as [|[k x] props Hx _ IH]; simpl; [constructor|].
  destruct (String.eqb k key); [exact Hx|exact IH].
Qed.

Lemma get_well_formed (v x : value) (key : string) :
  well_formed v -> get v key = Ok x -> well_formed x.
Proof.
  intros Hv. destruct v; simpl; try discriminate;
    try (intros H; injection H as <-; constructor).
  - destruct (String.eqb key "length"); intros H; injection H as <-; constructor.
  - destruct (String.eqb key "length"); intros H; injection H as <-; constructor.
  - intros H. injection H as <-. inversion Hv; subst. now apply prop_well_formed.
Qed.

Lemma set_keys (props : list (string * value)) (key : string) (v : value) :
  (In key (map fst props) /\ map fst (JS.set props key v) = map fst props) \/
  (~ In key (map fst props) /\ map fst (JS.set props key v) = map fst props ++ [key]).
Proof.
  induction props as [|[k x] props IH]; simpl.
  - right. split; [tauto|reflexivity].
  - destruct (String.eqb_spec k key) as [->|Hne]; simpl.
    + left. split; [now left|reflexivity].
    + destruct IH as [[Hin ->]|[Hout ->]].
      * left. split; [now right|reflexivity].
      * right. split; [tauto|reflexivity].
Qed.

Lemma set_distinct (props : list (string * value)) (key : string) (v : value) :
  NoDup (map fst props) -> NoDup (map fst (JS.set props key v)).
Proof.
  intros Hnd. destruct (set_keys props key v) as [[_ ->]|[Hout ->]]; [assumption|].
  apply NoDup_app; [assumption|repeat constructor; simpl; tauto|].
  intros k Hk [<-|[]]. contradiction.
Qed.

Lemma set_values (props : list (string * value)) (key : string) (v : value) :
  well_formed v ->
  Forall (fun kv => well_formed (snd kv)) props ->
  Forall (fun kv => well_formed (snd kv)) (JS.set props key v).
Proof.
  intros Hv. induction 1 as [|[k x] props Hx Hrest IH]; simpl.
  - repeat constructor. exact Hv.
  - destruct (String.eqb k key); constructor; assumption.
Qed.

Lemma update_well_formed (target : string) (data : value) (iso : string)
    (sub y : value) :
  well_formed data -> well_formed sub ->
  update target data iso sub = Ok y -> well_formed y.
Proof.
  intros Hdata Hsub. unfold update.
  destruct (get sub "operation") as [op|e] eqn:Hop; cbn [bind]; [|discriminate].
  destruct (is_str op target) eqn:Hstr; [|intros H; now injection H as <-].
  assert (Hobj : exists props, sub = Obj props).
  { destruct sub; simpl in Hop; try discriminate; eauto;
      try destruct (String.eqb "operation" "length");
      injection Hop as <-; discriminate. }
  destruct Hobj as [props ->]. inversion Hsub as [| | | | | |? Hnd Hall]; subst.
  destruct (get data "status") as [st|e] eqn:Hst; cbn [bind]; [|discriminate].
  destruct (get data "details") as [details|e] eqn:Hd; cbn [bind]; [|discriminate].
  intros H. injection H as <-. cbn [spread]. constructor.
  - now repeat apply set_distinct.
  - apply set_values; [exact (get_well_formed data _ _ Hdata Hd)|].
    apply set_values; [constructor|].
    apply set_values; [exact (get_well_formed data _ _ Hdata Hst)|assumption].
Qed.

Lemma map_from_Forall {A} (P : value -> Prop) (Q : A -> Prop)
    (f : nat -> value -> result A) (l : list value) :
  (forall i x y, P x -> f i x = Ok y -> Q y) ->
  Forall P l ->
  forall i l', map_from i f l = Ok l' -> Forall Q l'.
Proof.
  intros Hf. induction 1 as [|x l Hx _ IH]; intros i l' H; simpl in H.
  - injection H as <-. constructor.
  - destruct (f i x) as [y|e] eqn:Hy; simpl in H; [|discriminate].
    destruct (map_from (S i) f l) as [ys|e] eqn:Hys; simpl in H; [|discriminate].
    injection H as <-. constructor; eauto.
Qed.

Lemma saved_after_save (l : list value) (w : world) :
  Forall well_formed l ->
  has_room l (store w) = true ->
  loadSubmissionsFromStorage (store (saveSubmissionsToStorage l w))
  = Arr (map to_json l).
Proof.
  intros Hwf Hroom. apply load_after_save_normal; [assumption|].
  now apply has_room_fits.
Qed.

Lemma submitted_well_formed (now : Z) (iso : string)
    (form : list (string * value)) (o : fetch_outcome) (newSubmission : value) :
  well_served o -> well_formed_form form ->
  submitted now iso form o = Ok (Some newSubmission) ->
  well_formed newSubmission.
Proof.
  intros Ho Hform. unfold submitted.
  destruct o as [e|r]; cbn [awaited bind]; [discriminate|].
  destruct (json r) as [data|e] eqn:Hjson; cbn [bind]; [|discriminate].
  specialize (Ho r data eq_refl Hjson).
  destruct (get data "operation") as [operation|e] eqn:Hop; cbn [bind]; [|discriminate].
  destruct (truthy operation); [|discriminate].
  destruct (get data "timestamp") as [timestamp|e] eqn:Hts; cbn [bind]; [|discriminate].
  intros H. injection H as <-. constructor.
  - cbn [map fst].
    repeat (apply NoDup_cons; [simpl; intuition discriminate|]). apply NoDup_nil.
  - repeat (apply Forall_cons; cbn [snd]);
      try apply Forall_nil; try apply prop_well_formed; try assumption;
      try (constructor; fail);
      [exact (get_well_formed data _ _ Ho Hop)
      |exact (get_well_formed data _ _ Ho Hts)].
Qed.

(** X12. The stored history follows the list in memory.  If what a page
    load would read is the list the component holds, this is still so after
    [handleScan], after [clearSubmissionHistory], and after [handleSubmit]
    and [refreshSubmissionStatus] whenever the answer is a well-formed value
    and the store has room for the new list. *)
Theorem stored_history_follows_memory :
  forall (s : State) (w : world),
    saved s w ->
    (forall now iso o,
        let out := handleScan now iso o s w in saved (fst out) (snd out)) /\
    (forall now iso o,
        let out := handleSubmit now iso o s w in
        well_served o -> well_formed_form (submissionForm s) ->
        has_room (submissions (fst out)) (store w) = true ->
        saved (fst out) (snd out)) /\
    (forall operation clock o,
        let out := refreshSubmissionStatus operation clock o s w in
        well_served o ->
        has_room (submissions (fst out)) (store w) = true ->
        saved (fst out) (snd out)) /\
    (forall confirmed,
        let out := clearSubmissionHistory confirmed s w in
        saved (fst out) (snd out)).
Proof.
  intros s w [Hwf Hload]. split; [|split; [|split]].
  - intros now iso o. split; assumption.
  - intros now iso o out Ho Hform. subst out. unfold handleSubmit.
    destruct (submitted now iso (submissionForm s) o) as [[newSubmission|]|e] eqn:Hsub;
      cbn [fst snd submissions]; intros Hroom; try (split; assumption).
    assert (Hall : Forall well_formed (newSubmission :: submissions s)).
    { constructor; [|assumption].
      exact (submitted_well_formed now iso _ o _ Ho Hform Hsub). }
    split; [assumption|]. now apply saved_after_save.
  - intros operation clock o out Ho. subst out. unfold refreshSubmissionStatus.
    destruct operation as [| | | |target| |]; cbn [fst snd];
      try (intros _; split; assumption).
    destruct (polled target clock o (submissions s)) as [updated|e] eqn:Hp;
      cbn [fst snd submissions]; intros Hroom; try (split; assumption).
    assert (Hall : Forall well_formed updated).
    { unfold polled in Hp. destruct o as [e|r]; cbn [awaited bind] in Hp;
        [discriminate|].
      destruct (ok r); cbn [negb] in Hp; [|discriminate].
      destruct (json r) as [data|e] eqn:Hjson; cbn [bind] in Hp; [|discriminate].
      specialize (Ho r data eq_refl Hjson).
      eapply (map_from_Forall well_formed well_formed); [|exact Hwf|exact Hp].
      intros i x y Hx Hy.
      exact (update_well_formed target data (clock i) x y Ho Hx Hy). }
    split; [assumption|]. now apply saved_after_save.
  - intros [|]; [|split; assumption]. split; [constructor|].
    unfold clearSubmissionHistory, loadSubmissionsFromStorage, getItem.
    cbn [fst snd submissions store emit removeItem items map].
    now rewrite item_without.
Qed.

Lemma stored_history_follows_memory_witness :
  let out := handleSubmit 1700000000000 "2023-11-14T22:13:20.000Z"
               (served (Obj [("operation", Str "operations/7")]))
               (filling quick_form) sample_world in
  saved (fst out) (snd out).
Proof.
  assert (Hstart : saved (filling quick_form) sample_world).
  { split; [constructor|reflexivity]. }
  apply (proj1 (proj2 (stored_history_follows_memory (filling quick_form)
                         sample_world Hstart))).
  - intros r data Hr Hjson. injection Hr as <-. injection Hjson as <-.
    repeat constructor; simpl; intuition discriminate.
  - repeat constructor.
  - vm_compute. reflexivity.
Defined.

End Store.

Section FullStore.
Import WebRiskDemo.

(** X13. When the store has no room for the new list, the change is kept
    in memory only: an accepted submission is in the list and the form is
    reset, a refresh has updated the list, but the store is as it was, so
    the next page load does not see the change. *)
Theorem full_store_keeps_changes_in_memory_only :
  forall (s : State) (w : world),
    (forall now iso r data operation,
        json r = Ok data ->
        get data "operation" = Ok operation ->
        truthy operation = true ->
        let out := handleSubmit now iso (Responded r) s w in
        has_room (submissions (fst out)) (store w) = false ->
        List.length (submissions (fst out)) = S (List.length (submissions s)) /\
        submissionForm (fst out) = emptyForm /\
        store (snd out) = store w) /\
    (forall operation clock o,
        let out := refreshSubmissionStatus operation clock o s w in
        has_room (submissions (fst out)) (store w) = false ->
        store (snd out) = store w).
Proof.
  intros s w. split.
  - intros now iso r data operation Hjson Hop Htruthy out. subst out.
    assert (Hts : exists ts, get data "timestamp" = Ok ts).
    { destruct (get_total data operation "operation" "timestamp" Hop); eauto. }
    destruct Hts as [ts Hts].
    unfold handleSubmit, submitted. cbn [awaited bind]. rewrite Hjson.
    cbn [bind]. rewrite Hop. cbn [bind]. rewrite Htruthy, Hts.
    cbn [bind fst snd submissions submissionForm]. intros Hroom.
    split; [reflexivity|]. split; [reflexivity|].
    rewrite save_store. cbn [emit store]. now rewrite Hroom.
  - intros operation clock o out. subst out. unfold refreshSubmissionStatus.
    destruct operation as [| | | |target| |]; try reflexivity.
    destruct (polled target clock o (submissions s)) as [updated|e];
      cbn [fst snd submissions]; [|reflexivity].
    intros Hroom. rewrite save_store. cbn [emit store]. now rewrite Hroom.
Qed.

Lemma full_store_keeps_changes_in_memory_only_witness :
  let out := handleSubmit 1700000000000 "2023-11-14T22:13:20.000Z"
               (served (Obj [("operation", Str "operations/7")]))
               (filling quick_form) full_world in
  List.length (submissions (fst out)) = 1 /\
  submissionForm (fst out) = emptyForm /\
  store (snd out) = store full_world.
Proof.
  apply (proj1 (full_store_keeps_changes_in_memory_only (filling quick_form)
                  full_world)
           1700000000000%Z "2023-11-14T22:13:20.000Z"
           {| ok := true; status := 200;
              json := Ok (Obj [("operation", Str "operations/7")]) |}
           (Obj [("operation", Str "operations/7")]) (Str "operations/7")).
  - reflexivity.
  - reflexivity.
  - reflexivity.
  - vm_compute. reflexivity.
Defined.

Lemma item_without_other (key other : string) (l : list (string * string)) :
  other <> key -> item other (without key l) = item other l.
Proof.
  intros Hne. induction l as [|[k v] l IH]; simpl; [reflexivity|].
  destruct (String.eqb_spec k key) as [->|Hk]; simpl.
  - destruct (String.eqb_spec key other) as [->|_]; [contradiction|exact IH].
  - destruct (String.eqb k other); [reflexivity|exact IH].
Qed.

Lemma save_other_keys (key : string) (l : list value) (w : world) :
  key <> STORAGE_KEY ->
  getItem key (store (saveSubmissionsToStorage l w)) = getItem key (store w).
Proof.
  intros Hne. rewrite save_store. destruct (has_room l (store w)); [|reflexivity].
  unfold getItem. cbn [items item].
  destruct (String.eqb_spec STORAGE_KEY key) as [<-|_]; [contradiction|].
  now apply item_without_other.
Qed.

(** X14. No handler touches an item of [localStorage] other than the one
    under [STORAGE_KEY]: every other key reads the same after [handleScan],
    [handleSubmit], [refreshSubmissionStatus] and [clearSubmissionHistory]. *)
Theorem handlers_leave_other_items_alone :
  forall (key : string) (s : State) (w : world),
    key <> STORAGE_KEY ->
    (forall now iso o,
        getItem key (store (snd (handleScan now iso o s w))) = getItem key (store w)) /\
    (forall now iso o,
        getItem key (store (snd (handleSubmit now iso o s w))) = getItem key (store w)) /\
    (forall operation clock o,
        getItem key (store (snd (refreshSubmissionStatus operation clock o s w)))
        = getItem key (store w)) /\
    (forall confirmed,
        getItem key (store (snd (clearSubmissionHistory confirmed s w)))
        = getItem key (store w)).
Proof.
  intros key s w Hne. split; [|split; [|split]].
  - reflexivity.
  - intros now iso o. unfold handleSubmit.
    destruct (submitted now iso (submissionForm s) o) as [[newSubmission|]|e];
      cbn [snd]; try reflexivity.
    now rewrite save_other_keys.
  - intros operation clock o. unfold refreshSubmissionStatus.
    destruct operation as [| | | |target| |]; try reflexivity.
    destruct (polled target clock o (submissions s)) as [updated|e];
      cbn [snd]; [|reflexivity].
    now rewrite save_other_keys.
  - intros [|]; [|reflexivity]. unfold clearSubmissionHistory, getItem.
    cbn [snd store emit removeItem items]. now apply item_without_other.
Qed.

Lemma handlers_leave_other_items_alone_witness :
  getItem "theme"
    (store (snd (clearSubmissionHistory true sample_state
                   {| store := {| items := [(STORAGE_KEY, "[]"); ("theme", "dark")];
                                  quota := 5000000 |};
                      log := [] |})))
  = Some "dark".
Proof.
  apply (proj2 (proj2 (proj2
           (handlers_leave_other_items_alone "theme" sample_state
              {| store := {| items := [(STORAGE_KEY, "[]"); ("theme", "dark")];
                             quota := 5000000 |};
                 log := [] |}
              ltac:(discriminate)))) true).
Defined.

End FullStore.

(** ** The requests of [SubmissionTab] *)

Section Tab.

Lemma refresh_one_requests (sub : value) (o : fetch_outcome) :
  is_object sub ->
  snd (SubmissionTab.refresh_one sub o)
  = if isPending sub then [Fetch (SubmissionTab.status_request sub)] else [].
Proof.
  intros [props ->]. unfold SubmissionTab.refresh_one, isPending.
  cbn [get]. destruct (is_str _ _); reflexivity.
Qed.

Lemma bulk_requests (net : nat -> fetch_outcome) (subs : list value) :
  Forall is_object subs ->
  forall i : nat,
    List.concat (map snd (mapi i (fun i s => SubmissionTab.refresh_one s (net i)) subs))
    = map (fun s => Fetch (SubmissionTab.status_request s)) (filter isPending subs).
Proof.
  induction 1 as [|sub subs Hsub _ IH]; intros i; [reflexivity|].
  cbn [mapi map List.concat filter]. rewrite IH, refresh_one_requests by assumption.
  destruct (isPending sub); reflexivity.
Qed.

(** X15. The bulk refresh of [SubmissionTab] sends one status request for
    each PENDING record, in the order of the list, and nothing else: a
    record with any other status is not asked about. *)
Theorem refreshSubmissionStatus_polls_each_pending_record_once :
  forall (net : nat -> fetch_outcome) (subs : list value) (w : world),
    Forall is_object subs ->
    log (snd (SubmissionTab.refreshSubmissionStatus net subs w))
    = log w ++ map (fun s => Fetch (SubmissionTab.status_request s))
                   (filter isPending subs).
Proof.
  intros net subs w Hobj. unfold SubmissionTab.refreshSubmissionStatus.
  rewrite <- (bulk_requests net subs Hobj 0).
  destruct (all _); reflexivity.
Qed.

Lemma refreshSubmissionStatus_polls_each_pending_record_once_witness :
  log (snd (SubmissionTab.refreshSubmissionStatus first_fails
              [tab_record "operations/1" "PENDING";
               tab_record "operations/2" "SUCCEEDED";
               tab_record "operations/3" "PENDING"] sample_world))
  = [Fetch {| req_method := "GET"; req_url := "/api/submission/operations/1";
              req_body := None |};
     Fetch {| req_method := "GET"; req_url := "/api/submission/operations/3";
              req_body := None |}].
Proof.
  apply (refreshSubmissionStatus_polls_each_pending_record_once first_fails
           [tab_record "operations/1" "PENDING";
            tab_record "operations/2" "SUCCEEDED";
            tab_record "operations/3" "PENDING"] sample_world).
  repeat constructor; eexists; reflexivity.
Defined.

Lemma append_inj (p a b : string) : (p ++ a = p ++ b)%string -> a = b.
Proof. induction p as [|c p IH]; simpl; intros H; [assumption|]. injection H. exact IH. Qed.

(** X16. For a record with a given operation, [SubmissionTab] asks for
    [/api/submission/] followed by the whole operation and [WebRiskDemo] for
    [/api/submission/] followed by its last segment; the two addresses are
    the same exactly when the operation holds no slash. *)
Theorem components_poll_the_same_address_iff_no_slash :
  forall (target : string) (props : list (string * value)),
    prop "operation" props = Str target ->
    (req_url (SubmissionTab.status_request (Obj props))
     = req_url (WebRiskDemo.poll_request (pop (split target)))
     <-> slash_free target).
Proof.
  intros target props Hop. unfold SubmissionTab.status_request, WebRiskDemo.poll_request.
  cbn [req_url spread]. rewrite Hop. cbn [to_string]. split.
  - intros H. apply append_inj in H. rewrite H.
    pose proof (split_slash_free target) as Hfree.
    rewrite Forall_forall in Hfree. apply Hfree, last_in, split_nonempty.
  - intros H. now rewrite split_slash_free_string.
Qed.

Lemma components_poll_the_same_address_iff_no_slash_witness :
  req_url (SubmissionTab.status_request (tab_record "123" "PENDING"))
  = req_url (WebRiskDemo.poll_request (pop (split "123"))).
Proof.
  apply (proj2 (components_poll_the_same_address_iff_no_slash "123"
                  (spread (tab_record "123" "PENDING")) eq_refl)).
  simpl. repeat split; discriminate.
Defined.

(** X17. In [SubmissionTab] an answer is taken as it comes ([ok] is not
    looked at): when its body has no status, or one that is none of PENDING,
    SUCCEEDED, CLOSED, a pending record gets that status, is shown as
    "Processing", and is never asked about again: a later bulk refresh of
    it sends nothing and changes nothing. *)
Theorem answer_without_status_strands_the_record :
  forall (props : list (string * value)) (r : response) (data st : value),
    prop "status" props = Str "PENDING" ->
    json r = Ok data ->
    get data "status" = Ok st ->
    unknown_status st ->
    exists updated,
      SubmissionTab.refresh_one (Obj props) (Responded r)
      = (Ok updated, [Fetch (SubmissionTab.status_request (Obj props))]) /\
      get updated "status" = Ok st /\
      text (SubmissionHistory.getStatusDisplay st) = "Processing" /\
      forall (net : nat -> fetch_outcome) (w : world),
        fst (SubmissionTab.refreshSubmissionStatus net [updated] w) = [updated] /\
        log (snd (SubmissionTab.refreshSubmissionStatus net [updated] w)) = log w.
Proof.
  intros props r data st Hpending Hjson Hst (Hp & Hs & Hc).
  unfold SubmissionTab.refresh_one, SubmissionTab.refreshed.
  cbn [get awaited bind]. rewrite Hpending. cbn [is_str String.eqb Ascii.eqb Bool.eqb].
  rewrite Hjson. cbn [bind]. rewrite Hst. cbn [bind spread].
  eexists. split; [reflexivity|]. cbn [get]. rewrite prop_set_same.
  split; [reflexivity|]. split.
  - unfold SubmissionHistory.getStatusDisplay. now rewrite Hs, Hc.
  - intros net w. unfold SubmissionTab.refreshSubmissionStatus.
    cbn [mapi map]. unfold SubmissionTab.refresh_one. cbn [get].
    rewrite prop_set_same, Hp. cbn. split; [reflexivity|].
    now rewrite List.app_nil_r.
Qed.

Lemma answer_without_status_strands_the_record_witness :
  exists updated,
    SubmissionTab.refresh_one (tab_record "operations/1" "PENDING")
      (Responded {| ok := false; status := 404;
                    json := Ok (Obj [("error", Str "Not found")]) |})
    = (Ok updated,
       [Fetch (SubmissionTab.status_request (tab_record "operations/1" "PENDING"))]) /\
    get updated "status" = Ok Undefined /\
    text (SubmissionHistory.getStatusDisplay Undefined) = "Processing" /\
    forall (net : nat -> fetch_outcome) (w : world),
      fst (SubmissionTab.refreshSubmissionStatus net [updated] w) = [updated] /\
      log (snd (SubmissionTab.refreshSubmissionStatus net [updated] w)) = log w.
Proof.
  apply (answer_without_status_strands_the_record
           (spread (tab_record "operations/1" "PENDING"))
           {| ok := false; status := 404;
              json := Ok (Obj [("error", Str "Not found")]) |}
           (Obj [("error", Str "Not found")]) Undefined).
  - reflexivity.
  - reflexivity.
  - reflexivity.
  - repeat split.
Defined.

End Tab.

(** ** The form of [SubmissionTab] and the request bodies *)

Section Form.

(** X18. [SubmissionForm.handleSubmit] sends one request and writes
    nothing to the store.  When the submission comes to nothing the list of
    the parent and the fields are as they were; when the answer carries an
    operation the parent gets a PENDING record made of the fields and the
    answer in front of its list, and the fields are cleared.  Either way
    [isSubmitting] is off at the end. *)
Theorem SubmissionForm_handleSubmit_hands_over_or_keeps :
  forall (o : fetch_outcome) (f : SubmissionForm.Fields)
         (submissions : list value) (w : world),
    let out := SubmissionForm.handleSubmit o f submissions w in
    let f' := fst (fst out) in
    let submissions' := snd (fst out) in
    log (snd out) = log w ++ [Fetch (SubmissionForm.submit_request f)] /\
    store (snd out) = store w /\
    SubmissionForm.isSubmitting f' = false /\
    (submit_fault o ->
       submissions' = submissions /\
       SubmissionForm.url f' = SubmissionForm.url f /\
       SubmissionForm.evidence f' = SubmissionForm.evidence f /\
       SubmissionForm.submissionType f' = SubmissionForm.submissionType f) /\
    (forall r data operation timestamp,
       o = Responded r -> json r = Ok data ->
       get data "operation" = Ok operation -> truthy operation = true ->
       get data "timestamp" = Ok timestamp ->
       submissions'
       = Obj [("url", Str (SubmissionForm.url f));
              ("operation", operation);
              ("timestamp", timestamp);
              ("evidence", Str (SubmissionForm.evidence f));
              ("type", Str (SubmissionForm.submissionType f));
              ("status", Str "PENDING")] :: submissions /\
       SubmissionForm.url f' = EmptyString /\
       SubmissionForm.evidence f' = EmptyString /\
       SubmissionForm.submissionType f' = EmptyString).
Proof.
  intros o f submissions w out f' submissions'.
  subst f' submissions' out. unfold SubmissionForm.handleSubmit.
  split; [|split; [|split; [|split]]].
  - destruct (SubmissionForm.accepted f o) as [[x|]|e]; reflexivity.
  - destruct (SubmissionForm.accepted f o) as [[x|]|e]; reflexivity.
  - destruct (SubmissionForm.accepted f o) as [[x|]|e]; reflexivity.
  - intros Hfault.
    assert (H : SubmissionForm.accepted f o = Ok None \/
                exists e, SubmissionForm.accepted f o = Throw e).
    { destruct Hfault as [e|r e Hjson|r data operation Hjson Hop Hfalsy];
        unfold SubmissionForm.accepted; cbn [awaited bind].
      - eauto.
      - rewrite Hjson. cbn. eauto.
      - rewrite Hjson. cbn [bind]. rewrite Hop. cbn [bind]. rewrite Hfalsy. auto. }
    destruct H as [->|[e ->]]; repeat split.
  - intros r data operation timestamp -> Hjson Hop Htruthy Hts.
    unfold SubmissionForm.accepted. cbn [awaited bind]. rewrite Hjson.
    cbn [bind]. rewrite Hop. cbn [bind]. rewrite Htruthy, Hts.
    cbn [bind fst snd]. repeat split.
Qed.

Lemma SubmissionForm_handleSubmit_hands_over_or_keeps_witness :
  snd (fst (SubmissionForm.handleSubmit
              (served (Obj [("error", Str "Invalid URL")]))
              {| SubmissionForm.url := "not a url";
                 SubmissionForm.evidence := "x";
                 SubmissionForm.submissionType := "phishing";
                 SubmissionForm.isSubmitting := true |}
              two_pending sample_world))
  = two_pending.
Proof.
  apply (proj1 (proj2 (proj2 (proj2
           (SubmissionForm_handleSubmit_hands_over_or_keeps
              (served (Obj [("error", Str "Invalid URL")]))
              {| SubmissionForm.url := "not a url";
                 SubmissionForm.evidence := "x";
                 SubmissionForm.submissionType := "phishing";
                 SubmissionForm.isSubmitting := true |}
              two_pending sample_world))))).
  apply (submit_without_operation _ (Obj [("error", Str "Invalid URL")]) Undefined);
    reflexivity.
Defined.

End Form.

Section Bodies.

Ltac distinct_keys :=
  cbn [map fst];
  repeat (apply NoDup_cons; [simpl; intuition discriminate|]); apply NoDup_nil.

(** X19. The body of each request is a JSON text that reads back as the
    object that was sent, whatever characters the fields hold: the url of a
    scan, the three fields of [SubmissionForm], and the five properties of
    the form of [WebRiskDemo] when the form has them as JSON values. *)
Theorem request_bodies_read_back :
  (forall u : string,
      exists text,
        req_body (WebRiskDemo.scan_request u) = Some text /\
        JSON.parse text = Ok (Obj [("url", Str u)])) /\
  (forall f : SubmissionForm.Fields,
      exists text,
        req_body (SubmissionForm.submit_request f) = Some text /\
        JSON.parse text
        = Ok (Obj [("url", Str (SubmissionForm.url f));
                   ("evidence", Str (SubmissionForm.evidence f));
                   ("type", Str (SubmissionForm.submissionType f))])) /\
  (forall form : list (string * value),
      Forall (fun kv => storable (snd kv)) form ->
      (forall key, In key ["url"; "evidence"; "abuseType"; "platform"; "regionCodes"] ->
                   In key (map fst form)) ->
      exists text,
        req_body (WebRiskDemo.submit_request form) = Some text /\
        JSON.parse text
        = Ok (Obj [("url", prop "url" form);
                   ("evidence", prop "evidence" form);
                   ("abuseType", prop "abuseType" form);
                   ("platform", prop "platform" form);
                   ("regionCodes", prop "regionCodes" form)])).
Proof.
  split; [|split].
  - intros u. apply parse_stringify. constructor; [distinct_keys|].
    repeat constructor.
  - intros f. apply parse_stringify. constructor; [distinct_keys|].
    repeat constructor.
  - intros form Hform Hkeys. apply parse_stringify.
    assert (Hprop : forall key, In key (map fst form) -> storable (prop key form)).
    { intros key. unfold prop. clear Hkeys.
      induction Hform as [|[k x] form Hx _ IH]; simpl; [tauto|].
      intros [->|Hin].
      - now rewrite String.eqb_refl.
      - destruct (String.eqb k key); [exact Hx|now apply IH]. }
    constructor; [distinct_keys|].
    repeat (apply Forall_cons; [apply Hprop, Hkeys; simpl; tauto|]).
    apply Forall_nil.
Qed.

Lemma request_bodies_read_back_witness :
  exists text,
    req_body (WebRiskDemo.submit_request quick_form) = Some text /\
    JSON.parse text = Ok (Obj quick_form).
Proof.
  apply (proj2 (proj2 request_bodies_read_back) quick_form).
  - unfold quick_form.
    repeat (apply Forall_cons; [cbn [snd]; repeat constructor|]). apply Forall_nil.
  - simpl. intuition (subst; tauto).
Defined.

End Bodies.

(** ** A submission and its refresh *)

Section Flow.
Import WebRiskDemo.

Lemma update_matching (target : string) (data st details : value) (iso : string)
    (props : list (string * value)) :
  prop "operation" props = Str target ->
  get data "status" = Ok st ->
  get data "details" = Ok details ->
  update target data iso (Obj props)
  = Ok (Obj (JS.set (JS.set (JS.set props "status" st) "lastUpdated" (Str iso))
               "details" details)).
Proof.
  intros Hop Hst Hd. unfold update. cbn [get bind]. rewrite Hop.
  cbn [is_str]. rewrite String.eqb_refl, Hst, Hd. reflexivity.
Qed.

Lemma network_calls_save (l : list value) (w : world) :
  network_calls (log (saveSubmissionsToStorage l w)) = network_calls (log w).
Proof.
  destruct (save_log l w) as [text ->]. rewrite network_calls_app.
  apply List.app_nil_r.
Qed.

(** X20. A submission that is accepted with a string as its operation,
    followed by a refresh of that operation that is answered ok, leaves the
    new record first in the list with the status of the second answer, and
    the older records behind it; the two calls send the submission and one
    status request for the last segment of the operation. *)
Theorem accepted_submission_is_settled_by_its_refresh :
  forall (now : Z) (iso : string) (r : response) (data : value) (target : string)
         (clock : nat -> string) (r' : response) (data' st details : value)
         (s : State) (w : world),
    json r = Ok data ->
    get data "operation" = Ok (Str target) ->
    truthy (Str target) = true ->
    ok r' = true ->
    json r' = Ok data' ->
    get data' "status" = Ok st ->
    get data' "details" = Ok details ->
    Forall is_object (submissions s) ->
    let form := submissionForm s in
    let after_submit := handleSubmit now iso (Responded r) s w in
    let after_refresh :=
      refreshSubmissionStatus (Str target) clock (Responded r')
        (fst after_submit) (snd after_submit) in
    exists sub rest,
      submissions (fst after_refresh) = sub :: rest /\
      List.length rest = List.length (submissions s) /\
      get sub "operation" = Ok (Str target) /\
      get sub "url" = Ok (prop "url" form) /\
      get sub "status" = Ok st /\
      get sub "lastUpdated" = Ok (Str (clock 0)) /\
      network_calls (log (snd after_refresh))
      = network_calls (log w)
        ++ [Fetch (submit_request form);
            Fetch (poll_request (pop (split target)))].
Proof.
  intros now iso r data target clock r' data' st details s w
         Hjson Hop Htruthy Hok Hjson' Hst Hd Hobj form after_submit after_refresh.
  destruct (get_total data (Str target) "operation" "timestamp" Hop) as [ts Hts].
  assert (Hsubmit : exists props,
             prop "operation" props = Str target /\
             prop "url" props = prop "url" form /\
             after_submit
             = ({| url := url s; results := results s; loading := loading s;
                   submissions := Obj props :: submissions s;
                   submissionForm := emptyForm; isSubmitting := false |},
                saveSubmissionsToStorage (Obj props :: submissions s)
                  (emit (Fetch (submit_request form)) w))).
  { subst after_submit. unfold handleSubmit, submitted. cbn [awaited bind].
    rewrite Hjson. cbn [bind]. rewrite Hop. cbn [bind]. rewrite Htruthy, Hts.
    cbn [bind]. eexists. split; [|split; [|reflexivity]]; reflexivity. }
  destruct Hsubmit as (props & Hpop & Hpurl & Hsubmit).
  subst after_refresh. rewrite Hsubmit. cbn [fst snd].
  destruct (polled_ok target clock r' data' st details
              (Obj props :: submissions s) Hok Hjson' Hst Hd)
    as (updated & Hp & Hlen & Hnth).
  { constructor; [eexists; reflexivity|assumption]. }
  unfold refreshSubmissionStatus. cbn [submissions]. rewrite Hp.
  cbn [fst snd submissions].
  destruct (Hnth 0 (Obj props) eq_refl) as (y & Hy & Hn).
  rewrite (update_matching target data' st details (clock 0) props Hpop Hst Hd) in Hy.
  injection Hy as <-.
  destruct updated as [|sub rest]; [discriminate|]. cbn [nth_error] in Hn.
  injection Hn as ->. exists (Obj (JS.set (JS.set (JS.set props "status" st)
                                          "lastUpdated" (Str (clock 0)))
                                  "details" details)), rest.
  split; [reflexivity|]. split; [simpl in Hlen; congruence|]. cbn [get].
  repeat split.
  - rewrite !prop_set_other by discriminate. now rewrite Hpop.
  - rewrite !prop_set_other by discriminate. now rewrite Hpurl.
  - rewrite !prop_set_other by discriminate. now rewrite prop_set_same.
  - rewrite prop_set_other by discriminate. now rewrite prop_set_same.
  - rewrite network_calls_save. cbn [emit log]. rewrite network_calls_app.
    rewrite network_calls_save. cbn [emit log]. rewrite network_calls_app.
    cbn. now rewrite <- List.app_assoc.
Qed.

Lemma accepted_submission_is_settled_by_its_refresh_witness :
  let after_submit :=
    handleSubmit 1700000000000 "2023-11-14T22:13:20.000Z"
      (served (Obj [("operation", Str "operations/7")]))
      (filling quick_form) sample_world in
  let after_refresh :=
    refreshSubmissionStatus (Str "operations/7")
      (fun _ => "2023-11-15T08:00:00.000Z")
      (served (Obj [("status", Str "SUCCEEDED")]))
      (fst after_submit) (snd after_submit) in
  exists sub rest,
    submissions (fst after_refresh) = sub :: rest /\
    List.length rest = 0 /\
    get sub "operation" = Ok (Str "operations/7") /\
    get sub "url" = Ok (Str "http://evil.example") /\
    get sub "status" = Ok (Str "SUCCEEDED") /\
    get sub "lastUpdated" = Ok (Str "2023-11-15T08:00:00.000Z") /\
    network_calls (log (snd after_refresh))
    = [Fetch (submit_request quick_form); Fetch (poll_request "7")].
Proof.
  apply (accepted_submission_is_settled_by_its_refresh 1700000000000%Z
           "2023-11-14T22:13:20.000Z"
           {| ok := true; status := 200;
              json := Ok (Obj [("operation", Str "operations/7")]) |}
           (Obj [("operation", Str "operations/7")]) "operations/7"
           (fun _ => "2023-11-15T08:00:00.000Z")
           {| ok := true; status := 200;
              json := Ok (Obj [("status", Str "SUCCEEDED")]) |}
           (Obj [("status", Str "SUCCEEDED")]) (Str "SUCCEEDED") Undefined
           (filling quick_form) sample_world);
    try reflexivity.
  constructor.
Defined.

End Flow.

(** ** The status badges *)

Section Badges.

(** X21. The status badge of [SubmissionHistory] and that of [WebRiskDemo]
    have the same icon and colours for every status and the same text unless
    the status is CLOSED; both show "Added to blocklist" only for SUCCEEDED,
    and every status that is neither SUCCEEDED nor CLOSED, whether PENDING,
    undefined or anything else, as "Processing". *)
Theorem status_badges_agree :
  forall status : value,
    let tab := SubmissionHistory.getStatusDisplay status in
    let demo := Render.getSubmissionStatusStyle status in
    icon tab = icon demo /\
    iconClass tab = iconClass demo /\
    className tab = className demo /\
    (text tab = text demo <-> status <> Str "CLOSED") /\
    (text demo = "Added to blocklist" <-> status = Str "SUCCEEDED") /\
    (text demo = "Processing"
     <-> status <> Str "SUCCEEDED" /\ status <> Str "CLOSED").
Proof.
  intros status tab demo. subst tab demo.
  unfold SubmissionHistory.getStatusDisplay, Render.getSubmissionStatusStyle.
  destruct status as [| |b|z|s|l|props]; cbn [is_str icon iconClass className text];
    try (repeat split; intros; try discriminate; try reflexivity;
         intuition discriminate).
  destruct (String.eqb_spec s "SUCCEEDED") as [->|Hs];
    [|destruct (String.eqb_spec s "CLOSED") as [->|Hc]];
    cbn [icon iconClass className text];
    repeat split; intros; try discriminate; try reflexivity; try congruence;
    try (intuition congruence).
Qed.

End Badges.
